(** * Shallow embedding of the MCP orchestrator client (index.ts, llm adapters)

    Strings are modelled as [String.string] over ASCII; every character
    outside the ASCII range is, like any other character outside
    [a-zA-Z0-9_-], turned into ['_'] by the sanitizing regex, so the
    ASCII model covers all behaviours of the name mangling.  JSON numbers
    are modelled as integers. *)

From Stdlib Require Import String Ascii List ZArith Lia Bool.
From Stdlib Require Import DecimalString.
Import ListNotations.
Open Scope string_scope.
Set Warnings "-register-all".

(** ** JSON values and [JSON.stringify] *)

Inductive json : Type :=
| JNull
| JBool (b : bool)
| JNum (z : Z)
| JStr (s : string)
| JArr (l : list json)
| JObj (kvs : list (string * json)).

Definition quote_char : ascii := ascii_of_nat 34.
Definition backslash : ascii := ascii_of_nat 92.

Definition hex_digit (n : nat) : ascii :=
  if Nat.ltb n 10 then ascii_of_nat (48 + n) else ascii_of_nat (87 + n).

(** [QuoteJSONString]: escapes of the ECMAScript specification. *)
Definition escape_char (c : ascii) : string :=
  let n := nat_of_ascii c in
  if Nat.eqb n 34 then String backslash (String quote_char EmptyString)
  else if Nat.eqb n 92 then String backslash (String backslash EmptyString)
  else if Nat.eqb n 8 then String backslash "b"
  else if Nat.eqb n 12 then String backslash "f"
  else if Nat.eqb n 10 then String backslash "n"
  else if Nat.eqb n 13 then String backslash "r"
  else if Nat.eqb n 9 then String backslash "t"
  else if Nat.ltb n 32 then
    String backslash (String "u" (String "0" (String "0"
      (String (hex_digit (n / 16)) (String (hex_digit (n mod 16)) EmptyString)))))
  else String c EmptyString.

Fixpoint escape_string (s : string) : string :=
  match s with
  | EmptyString => EmptyString
  | String c r => escape_char c ++ escape_string r
  end.

Definition quote_json_string (s : string) : string :=
  String quote_char (escape_string s ++ String quote_char EmptyString).

Definition string_of_Z (z : Z) : string :=
  NilZero.string_of_int (Z.to_int z).

Fixpoint join (sep : string) (l : list string) : string :=
  match l with
  | [] => ""
  | [x] => x
  | x :: r => x ++ sep ++ join sep r
  end.

Fixpoint json_stringify (v : json) : string :=
  match v with
  | JNull => "null"
  | JBool true => "true"
  | JBool false => "false"
  | JNum z => string_of_Z z
  | JStr s => quote_json_string s
  | JArr l => "[" ++ join "," (map json_stringify l) ++ "]"
  | JObj kvs =>
      "{" ++ join ","
        (map (fun kv => quote_json_string (fst kv) ++ ":" ++ json_stringify (snd kv)) kvs)
      ++ "}"
  end.

(** ** Identifier sanitizing: [.replace(/[^a-zA-Z0-9_-]/g, "_")] *)

Definition underscore : ascii := "_"%char.

Definition is_ident_char (c : ascii) : bool :=
  let n := nat_of_ascii c in
  (Nat.leb 97 n && Nat.leb n 122) || (Nat.leb 65 n && Nat.leb n 90)
  || (Nat.leb 48 n && Nat.leb n 57) || Nat.eqb n 95 || Nat.eqb n 45.

Fixpoint sanitize (s : string) : string :=
  match s with
  | EmptyString => EmptyString
  | String c r => String (if is_ident_char c then c else underscore) (sanitize r)
  end.

(** [s.split("_")[0]]: the part before the first underscore. *)
Fixpoint split_underscore_0 (s : string) : string :=
  match s with
  | EmptyString => EmptyString
  | String c r => if Ascii.eqb c underscore then EmptyString else String c (split_underscore_0 r)
  end.

Fixpoint strip_prefix (p s : string) : option string :=
  match p, s with
  | EmptyString, _ => Some s
  | String a p', String b s' => if Ascii.eqb a b then strip_prefix p' s' else None
  | String _ _, EmptyString => None
  end.

(** [s.replace(pat, rep)] with a string pattern: first occurrence only. *)
Fixpoint replace_first (pat rep s : string) : string :=
  match strip_prefix pat s with
  | Some rest => rep ++ rest
  | None =>
      match s with
      | EmptyString => EmptyString
      | String c r => String c (replace_first pat rep r)
      end
  end.

(** ** Tools, servers and the registry *)

(** [OpenAI.ChatCompletionTool] (its [type] is always ["function"]). *)
Record FunctionDef := {
  fn_name : string;
  fn_description : string;
  fn_parameters : json
}.

Record ChatCompletionTool := {
  tool_type : string;
  tool_function : FunctionDef
}.

(** An entry of [client.listTools()].tools. *)
Record NativeTool := {
  nt_name : string;
  nt_description : option string;
  nt_inputSchema : json
}.

(** [MCPServer]; the client is an opaque connection handle (the transport
    is not observable by the orchestration logic). *)
Record MCPServer := {
  srv_name : string;
  srv_client : nat;
  srv_functions : list ChatCompletionTool
}.

(** [Map<string, MCPServer>]: insertion-ordered association list. *)
Fixpoint map_get {V} (k : string) (m : list (string * V)) : option V :=
  match m with
  | [] => None
  | (k', v) :: r => if String.eqb k k' then Some v else map_get k r
  end.

Fixpoint map_set {V} (k : string) (v : V) (m : list (string * V)) : list (string * V) :=
  match m with
  | [] => [(k, v)]
  | (k', v') :: r => if String.eqb k k' then (k', v) :: r else (k', v') :: map_set k v r
  end.

Record MCPOrchestrator := {
  systemPrompt : string;
  servers : list (string * MCPServer);
  allFunctions : list ChatCompletionTool
}.

Definition show_description (d : option string) : string :=
  match d with Some s => s | None => "undefined" end.

(** The [toolsResult.tools.map(...)] callback of [registerServer] and
    [registerServersFromConfig]. *)
Definition to_function (name : string) (tool : NativeTool) : ChatCompletionTool :=
  {| tool_type := "function";
     tool_function :=
       {| fn_name := sanitize (name ++ "_" ++ nt_name tool);
          fn_description := "[" ++ name ++ "] " ++ show_description (nt_description tool);
          fn_parameters := nt_inputSchema tool |} |}.

(** Lines 46-57 (and 117-128): after the handshake, store the server and
    append its functions. *)
Definition registerServer (o : MCPOrchestrator) (name : string) (client : nat)
    (tools : list NativeTool) : MCPOrchestrator :=
  let functions := map (to_function name) tools in
  {| systemPrompt := systemPrompt o;
     servers := map_set name {| srv_name := name; srv_client := client;
                                srv_functions := functions |} (servers o);
     allFunctions := allFunctions o ++ functions |}.

(** One registration: server name, its connection and its tool list. *)
Record Registration := {
  reg_name : string;
  reg_client : nat;
  reg_tools : list NativeTool
}.

Definition registerAll (o : MCPOrchestrator) (regs : list Registration) : MCPOrchestrator :=
  fold_left (fun o r => registerServer o (reg_name r) (reg_client r) (reg_tools r)) regs o.

Definition new_orchestrator (prompt : string) : MCPOrchestrator :=
  {| systemPrompt := prompt; servers := []; allFunctions := [] |}.

(** ** Messages and model responses *)

Inductive Role := RSystem | RUser | RAssistant | RTool.

(** [toolCall]: [{ id, function: { name, arguments } }]. *)
Record ToolCall := {
  call_id : string;
  call_name : string;
  call_arguments : string
}.

(** [ChatCompletionMessageParam]; absent fields are [None]. *)
Record Message := {
  role : Role;
  content : option string;
  tool_calls : option (list ToolCall);
  tool_call_id : option string
}.

Definition system_message (s : string) : Message :=
  {| role := RSystem; content := Some s; tool_calls := None; tool_call_id := None |}.
Definition user_message (s : string) : Message :=
  {| role := RUser; content := Some s; tool_calls := None; tool_call_id := None |}.
(** [{ role: "assistant", tool_calls: [toolCall] }] *)
Definition assistant_call_message (c : ToolCall) : Message :=
  {| role := RAssistant; content := None; tool_calls := Some [c]; tool_call_id := None |}.
(** [{ role: "tool", tool_call_id: toolCall.id, content }] *)
Definition tool_message (c : ToolCall) (s : string) : Message :=
  {| role := RTool; content := Some s; tool_calls := None; tool_call_id := Some (call_id c) |}.

(** [result.choices[i].message] *)
Record ModelResponse := { choices : list Message }.

Inductive ToolChoice := Auto | NoneChoice.

(** The arguments of one [llm.chat(messages, tools, tool_choice)] call. *)
Record ChatRequest := {
  req_messages : list Message;
  req_tools : list ChatCompletionTool;
  req_tool_choice : ToolChoice
}.

(** [client.callTool({ name, arguments })] on a given connection. *)
Record Invocation := {
  inv_client : nat;
  inv_name : string;
  inv_arguments : json
}.

(** [toolResult]: its [content] field, [None] when undefined. *)
Record ToolResult := { tr_content : option json }.

(** Thrown errors of [processQuery]. *)
Inductive Error :=
| UnknownToolName (name : string)   (* "Unknown tool name: ..." *)
| UnknownServer (name : string)     (* "Unknown server: ..." *)
| JSONSyntaxError (text : string)   (* JSON.parse failure *)
| TypeError                          (* [choices[0]] is undefined *)
| ProviderError                      (* llm.chat rejected *)
| ToolCallError.                     (* callTool rejected *)

(** Lines 85-87: [typeof c === "string" ? c : JSON.stringify(c ?? "")]. *)
Definition tool_content (c : option json) : string :=
  match c with
  | Some (JStr s) => s
  | None | Some JNull => json_stringify (JStr "")
  | Some v => json_stringify v
  end.

(** ** A state and error monad for [processQuery]

    The state holds the local [messages] array and the observable
    effects: every request made to the model and every tool invocation,
    in order. *)
Record St := {
  history : list Message;
  chat_log : list ChatRequest;
  tool_log : list Invocation
}.

Inductive Outcome (A : Type) :=
| Ok (a : A) (s : St)
| Err (e : Error) (s : St).
Arguments Ok {A}.
Arguments Err {A}.

Definition M (A : Type) := St -> Outcome A.

Definition ret {A} (a : A) : M A := fun s => Ok a s.
Definition bind {A B} (m : M A) (k : A -> M B) : M B :=
  fun s => match m s with Ok a s' => k a s' | Err e s' => Err e s' end.
Definition throw {A} (e : Error) : M A := fun s => Err e s.

Notation "x <- m ;; k" := (bind m (fun x => k)) (at level 61, m at next level, right associativity).
Notation "m ;;; k" := (bind m (fun _ => k)) (at level 61, right associativity).

Definition get_messages : M (list Message) := fun s => Ok (history s) s.
Definition set_messages (l : list Message) : M unit :=
  fun s => Ok tt {| history := l; chat_log := chat_log s; tool_log := tool_log s |}.
(** [messages.push(...ms)] *)
Definition push_messages (ms : list Message) : M unit :=
  fun s => Ok tt {| history := history s ++ ms; chat_log := chat_log s; tool_log := tool_log s |}.

Definition from_option {A} (e : Error) (o : option A) : M A :=
  match o with Some a => ret a | None => throw e end.

Definition from_sum {A} (x : Error + A) : M A :=
  match x with inr a => ret a | inl e => throw e end.

Definition state_of {A} (o : Outcome A) : St :=
  match o with Ok _ s => s | Err _ s => s end.

(** ** [MCPOrchestrator.processQuery] *)

Section Orchestration.

(** The model behind [this.llm.chat]: its answer may depend on every
    request made so far and on the current one. *)
Variable llm_chat : list ChatRequest -> ChatRequest -> option ModelResponse.
(** The backends behind [client.callTool]: the result may depend on every
    invocation made so far (stateful tool servers). *)
Variable call_tool : list Invocation -> Invocation -> option ToolResult.
(** [JSON.parse] *)
Variable json_parse : string -> option json.

Definition chat (req : ChatRequest) : M ModelResponse :=
  fun s =>
    let s' := {| history := history s; chat_log := chat_log s ++ [req];
                 tool_log := tool_log s |} in
    match llm_chat (chat_log s) req with
    | Some r => Ok r s'
    | None => Err ProviderError s'
    end.

Definition callTool (inv : Invocation) : M ToolResult :=
  fun s =>
    let s' := {| history := history s; chat_log := chat_log s;
                 tool_log := tool_log s ++ [inv] |} in
    match call_tool (tool_log s) inv with
    | Some r => Ok r s'
    | None => Err ToolCallError s'
    end.

(** [this.allFunctions.find(f => f.function.name === name)] *)
Definition find_tool (o : MCPOrchestrator) (name : string) : option ChatCompletionTool :=
  find (fun f => String.eqb (fn_name (tool_function f)) name) (allFunctions o).

(** Lines 73-80: the owning server and the tool name sent to it. *)
Definition resolve_tool (o : MCPOrchestrator) (c : ToolCall) : Error + (MCPServer * string) :=
  match find_tool o (call_name c) with
  | None => inl (UnknownToolName (call_name c))
  | Some toolMeta =>
      let serverName := split_underscore_0 (fn_name (tool_function toolMeta)) in
      match map_get serverName (servers o) with
      | None => inl (UnknownServer serverName)
      | Some server =>
          inr (server, replace_first (serverName ++ "_") "" (fn_name (tool_function toolMeta)))
      end
  end.

(** The body of the [for (const toolCall of response.tool_calls)] loop. *)
Definition dispatch_call (o : MCPOrchestrator) (c : ToolCall) : M unit :=
  st <- from_sum (resolve_tool o c) ;;
  args <- from_option (JSONSyntaxError (call_arguments c)) (json_parse (call_arguments c)) ;;
  toolResult <- callTool {| inv_client := srv_client (fst st); inv_name := snd st;
                            inv_arguments := args |} ;;
  push_messages [assistant_call_message c;
                 tool_message c (tool_content (tr_content toolResult))].

Fixpoint dispatch_all (o : MCPOrchestrator) (cs : list ToolCall) : M unit :=
  match cs with
  | [] => ret tt
  | c :: r => dispatch_call o c ;;; dispatch_all o r
  end.

(** [result.choices[0].message] *)
Definition first_choice (r : ModelResponse) : M Message :=
  from_option TypeError (hd_error (choices r)).

(** [message.content ?? ""] *)
Definition content_or_empty (m : Message) : string :=
  match content m with Some s => s | None => "" end.

Definition processQuery (o : MCPOrchestrator) (query : string) : M string :=
  set_messages [system_message (systemPrompt o); user_message query] ;;;
  messages <- get_messages ;;
  result <- chat {| req_messages := messages; req_tools := allFunctions o;
                    req_tool_choice := Auto |} ;;
  response <- first_choice result ;;
  match tool_calls response with
  | None | Some [] => ret (content_or_empty response)
  | Some calls =>
      dispatch_all o calls ;;;
      messages <- get_messages ;;
      (* [this.llm.chat(messages)]: default [tools = []], [tool_choice = "auto"] *)
      final <- chat {| req_messages := messages; req_tools := [];
                       req_tool_choice := Auto |} ;;
      msg <- first_choice final ;;
      ret (content_or_empty msg)
  end.

End Orchestration.

Definition empty_state : St := {| history := []; chat_log := []; tool_log := [] |}.

(** ** Provider adapters ([Claude.chat] and [GPT.chat]) *)

Module Adapters.

(** Anthropic content blocks of a native [messages.create] response. *)
Inductive ContentBlock :=
| TextBlock (text : string)
| ToolUseBlock (id name : string) (input : json)
| OtherBlock (type : string).

Record AnthropicRequest := {
  a_model : string;
  a_messages : list Message;
  a_system : option string;
  a_tools : list ChatCompletionTool;
  a_max_tokens : nat
}.

Record AnthropicResponse := { a_content : list ContentBlock }.

Definition isTextBlock (b : ContentBlock) : bool :=
  match b with TextBlock _ => true | _ => false end.

Definition is_system (r : Role) : bool :=
  match r with RSystem => true | _ => false end.

(** [messages.find(m => m.role === "system")?.content] *)
Definition system_of (messages : list Message) : option string :=
  match find (fun m => is_system (role m)) messages with
  | Some m => content m
  | None => None
  end.

Definition claude_request (messages : list Message) (tools : list ChatCompletionTool)
    : AnthropicRequest :=
  {| a_model := "claude-3-opus-20240229"; a_messages := messages;
     a_system := system_of messages; a_tools := tools; a_max_tokens := 1024 |}.

(** [Claude.chat]; [api] is [this.anthropic.messages.create] ([None]
    when it rejects).  The [tool_choice] argument is not forwarded. *)
Definition claude_chat (api : AnthropicRequest -> option AnthropicResponse)
    (messages : list Message) (tools : list ChatCompletionTool) (tool_choice : ToolChoice)
    : option ModelResponse :=
  match api (claude_request messages tools) with
  | None => None
  | Some res =>
      let text := match find isTextBlock (a_content res) with
                  | Some (TextBlock t) => t
                  | _ => ""
                  end in
      Some {| choices := [{| role := RAssistant; content := Some text;
                             tool_calls := Some []; tool_call_id := None |}] |}
  end.

Record OpenAIRequest := {
  o_model : string;
  o_messages : list Message;
  o_tools : list ChatCompletionTool;
  o_tool_choice : ToolChoice
}.

(** [GPT.chat]; [api] is [this.openai.chat.completions.create], whose
    native response already has the [choices[i].message] shape. *)
Definition gpt_chat (api : OpenAIRequest -> option ModelResponse)
    (messages : list Message) (tools : list ChatCompletionTool) (tool_choice : ToolChoice)
    : option ModelResponse :=
  api {| o_model := "gpt-4-1106-preview"; o_messages := messages; o_tools := tools;
         o_tool_choice := tool_choice |}.

(** The tool calls an Anthropic response carries natively. *)
Definition native_tool_uses (res : AnthropicResponse) : list (string * string * json) :=
  flat_map (fun b => match b with ToolUseBlock i n a => [(i, n, a)] | _ => [] end)
    (a_content res).

(** [text] is the text of the first text block of [blocks], or [""] when
    there is none. *)
Definition first_text_spec (blocks : list ContentBlock) (text : string) : Prop :=
  (exists pre post, blocks = (pre ++ TextBlock text :: post)%list /\
                    Forall (fun b => isTextBlock b = false) pre)
  \/ (Forall (fun b => isTextBlock b = false) blocks /\ text = "").

End Adapters.

(** ** Derived notions used in the statements *)

(** The two-message seed of [processQuery]. *)
Definition seed (o : MCPOrchestrator) (q : string) : list Message :=
  [system_message (systemPrompt o); user_message q].

(** The first model request of [processQuery] (line 68). *)
Definition query_request (o : MCPOrchestrator) (q : string) : ChatRequest :=
  {| req_messages := seed o q; req_tools := allFunctions o; req_tool_choice := Auto |}.

(** The state right after the first model request of [processQuery]. *)
Definition after_first_request (o : MCPOrchestrator) (q : string) (s : St) : St :=
  {| history := seed o q; chat_log := chat_log s ++ [query_request o q];
     tool_log := tool_log s |}.

(** The second model request (line 95), made on the history [h]. *)
Definition final_request (h : list Message) : ChatRequest :=
  {| req_messages := h; req_tools := []; req_tool_choice := Auto |}.

(** The invocation that the loop body sends for a call, when it gets that far. *)
Definition forward (json_parse : string -> option json) (o : MCPOrchestrator) (c : ToolCall)
    : option Invocation :=
  match resolve_tool o c with
  | inr (server, toolName) =>
      match json_parse (call_arguments c) with
      | Some args => Some {| inv_client := srv_client server; inv_name := toolName;
                             inv_arguments := args |}
      | None => None
      end
  | inl _ => None
  end.

(** The messages appended for calls [cs] whose results have contents [ts]. *)
Definition round_messages (cs : list ToolCall) (ts : list string) : list Message :=
  flat_map (fun p => [assistant_call_message (fst p); tool_message (fst p) (snd p)])
    (combine cs ts).

(** The results the backends give, one after the other, to the invocations
    [invs] when the invocations made before them are [log]. *)
Fixpoint tool_results (call_tool : list Invocation -> Invocation -> option ToolResult)
    (log invs : list Invocation) : option (list ToolResult) :=
  match invs with
  | [] => Some []
  | inv :: rest =>
      match call_tool log inv with
      | Some r =>
          match tool_results call_tool (log ++ [inv])%list rest with
          | Some rs => Some (r :: rs)
          | None => None
          end
      | None => None
      end
  end.

Definition no_tool_calls (m : Message) : Prop :=
  tool_calls m = None \/ tool_calls m = Some [].

(** Every [tool] message carries string content computed from a tool result. *)
Definition tool_contents_ok (h : list Message) : Prop :=
  forall m, In m h -> role m = RTool -> exists r, content m = Some (tool_content r).

(** Server names made only of [a-zA-Z0-9-]: unchanged by sanitizing, no ['_']. *)
Definition server_name_safe (n : string) : bool :=
  forallb (fun c => is_ident_char c && negb (Ascii.eqb c underscore)) (list_ascii_of_string n).

(** Tool names made only of [a-zA-Z0-9_-]. *)
Definition tool_name_safe (n : string) : bool :=
  forallb is_ident_char (list_ascii_of_string n).

(** Distinct-name and charset conditions under which qualified names are unique. *)
Definition registry_safe (regs : list Registration) : Prop :=
  Forall (fun r => server_name_safe (reg_name r) = true /\
                   Forall (fun t => tool_name_safe (nt_name t) = true) (reg_tools r) /\
                   NoDup (map nt_name (reg_tools r))) regs.

Definition qualified_names (o : MCPOrchestrator) : list string :=
  map (fun f => fn_name (tool_function f)) (allFunctions o).

(** The binding [registerServer] stores for a registration. *)
Definition binding_of (r : Registration) : MCPServer :=
  {| srv_name := reg_name r; srv_client := reg_client r;
     srv_functions := map (to_function (reg_name r)) (reg_tools r) |}.

(** ** Concrete scenarios *)

Module Scenario.

Definition native (n : string) : NativeTool :=
  {| nt_name := n; nt_description := Some n; nt_inputSchema := JObj [] |}.

Definition reg (n : string) (c : nat) (tools : list string) : Registration :=
  {| reg_name := n; reg_client := c; reg_tools := map native tools |}.

Definition orch (regs : list Registration) : MCPOrchestrator :=
  registerAll (new_orchestrator "You are an agent.") regs.

Definition math_files : MCPOrchestrator :=
  orch [reg "files" 1 ["read"]; reg "math" 2 ["add"; "read"]].

Definition call (id name args : string) : ToolCall :=
  {| call_id := id; call_name := name; call_arguments := args |}.

Definition add_call : ToolCall := call "call_1" "math_add" "{}".

Definition reply (text : string) (cs : list ToolCall) : ModelResponse :=
  {| choices := [{| role := RAssistant; content := Some text;
                    tool_calls := Some cs; tool_call_id := None |}] |}.

(** A model that asks for [math_add] in every response. *)
Definition always_tools_llm (_ : list ChatRequest) (_ : ChatRequest) : option ModelResponse :=
  Some (reply "calling" [add_call]).

(** A model that asks for [math_add], then answers. *)
Definition one_round_llm (past : list ChatRequest) (_ : ChatRequest) : option ModelResponse :=
  match past with
  | [] => Some (reply "" [add_call])
  | _ => Some (reply "The answer is 4" [])
  end.

(** A model whose second response names an unregistered tool. *)
Definition unknown_later_llm (past : list ChatRequest) (_ : ChatRequest) : option ModelResponse :=
  match past with
  | [] => Some (reply "" [add_call])
  | _ => Some (reply "done" [call "call_2" "nope_tool" "{}"])
  end.

Definition four_backend (_ : list Invocation) (_ : Invocation) : option ToolResult :=
  Some {| tr_content := Some (JNum 4) |}.

(** [JSON.parse] on the argument strings used here. *)
Definition parse_args (s : string) : option json :=
  if String.eqb s "{}" then Some (JObj []) else None.

(** A server whose tool name holds a character outside the charset. *)
Definition dotted : MCPOrchestrator := orch [reg "s" 1 ["get.data"]].

(** A model that asks for [s_get_data], then answers. *)
Definition dotted_llm (past : list ChatRequest) (_ : ChatRequest) : option ModelResponse :=
  match past with
  | [] => Some (reply "" [call "call_1" "s_get_data" "{}"])
  | _ => Some (reply "ok" [])
  end.

(** A model whose first response names [math_add] and then an unregistered tool. *)
Definition unknown_first_llm (_ : list ChatRequest) (_ : ChatRequest) : option ModelResponse :=
  Some (reply "" [add_call; call "call_2" "nope_tool" "{}"]).

End Scenario.

(** ** Start-up: the module-level key check and [loadConfig]

    Characters are UTF-16 code units restricted to 0..255 here, so the
    white space removed by [String.prototype.trim] is the code units 9-13,
    32 and 160. *)

Module Startup.

(** [model === lit] for a property value. *)
Definition option_eq_json_str (v : option json) (lit : string) : bool :=
  match v with Some (JStr s) => String.eqb s lit | _ => false end.

Definition is_js_space (c : ascii) : bool :=
  let n := nat_of_ascii c in
  (Nat.leb 9 n && Nat.leb n 13) || Nat.eqb n 32 || Nat.eqb n 160.

Fixpoint trim_start (s : string) : string :=
  match s with
  | EmptyString => EmptyString
  | String c r => if is_js_space c then trim_start r else s
  end.

Fixpoint trim_end (s : string) : string :=
  match s with
  | EmptyString => EmptyString
  | String c r =>
      let r' := trim_end r in
      if is_js_space c && String.eqb r' "" then EmptyString else String c r'
  end.

(** [s.trim()] *)
Definition trim (s : string) : string := trim_end (trim_start s).

(** [process.env]: the variables read by the program. *)
Record Env := {
  env_openai : option string;
  env_claude : option string
}.

(** [!v] for a [process.env] entry: undefined or the empty string. *)
Definition falsy (v : option string) : bool :=
  match v with None => true | Some s => String.eqb s "" end.

Inductive LLMKind := KClaude (apiKey : string) | KGPT (apiKey : string).

Inductive StartupError :=
| KeyNotSet (var : string)            (* "... is not set" *)
| DestructureNull                      (* [const {...} = null] *)
| UnsupportedLLM (model : option json) (* "Unsupported LLM type: ..." *)
| InvalidSystemPrompt
| InvalidServerConfig.

(** A property of the value [JSON.parse] returned; with duplicate keys
    the last one wins.  Non-object values have none of the three fields. *)
Fixpoint lookup_last (k : string) (kvs : list (string * json)) : option json :=
  match kvs with
  | [] => None
  | (k', v) :: r =>
      match lookup_last k r with
      | Some x => Some x
      | None => if String.eqb k k' then Some v else None
      end
  end.

Definition get_field (k : string) (v : json) : option json :=
  match v with JObj kvs => lookup_last k kvs | _ => None end.

(** [typeof v !== "string" || !v.trim()] fails; otherwise the string. *)
Definition nonblank_string (v : option json) : option string :=
  match v with
  | Some (JStr s) => if String.eqb (trim s) "" then None else Some s
  | _ => None
  end.

(** Lines 15-16 of index.ts, run when the module is loaded. *)
Definition module_init (env : Env) : StartupError + unit :=
  if falsy (env_openai env) then inl (KeyNotSet "OPENAI_API_KEY") else inr tt.

(** Lines 139-150 of [loadConfig]: the provider selected by the [llm] field. *)
Definition select_llm (env : Env) (model : option json) : StartupError + LLMKind :=
  if option_eq_json_str model "claude" then
    match env_claude env with
    | Some k => if String.eqb k "" then inl (KeyNotSet "CLAUDE_API_KEY") else inr (KClaude k)
    | None => inl (KeyNotSet "CLAUDE_API_KEY")
    end
  else if option_eq_json_str model "gpt" then
    match env_openai env with
    | Some k => if String.eqb k "" then inl (KeyNotSet "OPENAI_API_KEY") else inr (KGPT k)
    | None => inl (KeyNotSet "OPENAI_API_KEY")
    end
  else inl (UnsupportedLLM model).

(** [loadConfig], from the parsed content of [mcp.llm.json]. *)
Definition loadConfig (env : Env) (cfg : json) : StartupError + (LLMKind * string * string) :=
  match cfg with
  | JNull => inl DestructureNull
  | _ =>
    match select_llm env (get_field "llm" cfg) with
    | inl e => inl e
    | inr llm =>
        match nonblank_string (get_field "systemPrompt" cfg) with
        | None => inl InvalidSystemPrompt
        | Some systemPrompt =>
            match nonblank_string (get_field "serverConfig" cfg) with
            | None => inl InvalidServerConfig
            | Some serverConfig => inr (llm, systemPrompt, serverConfig)
            end
        end
    end
  end.

(** Loading index.ts and running [main] up to [loadConfig]. *)
Definition startup (env : Env) (cfg : json) : StartupError + (LLMKind * string * string) :=
  match module_init env with
  | inl e => inl e
  | inr _ => loadConfig env cfg
  end.

(** [{ command, args, env }] of one entry of the server configuration. *)
Record ServerSpec := {
  spec_command : string;
  spec_args : list string;
  spec_env : option (list (string * string))
}.

(** [registerServersFromConfig] over [Object.entries(config)].  [connect]
    stands for [client.connect(transport)] followed by [client.listTools()]:
    the new connection and its tools, or [None] when either rejects.  The
    result is the registry reached, the names a connection was attempted
    for, and the name whose connection failed, if any. *)
Fixpoint registerServersFromConfig (connect : string -> ServerSpec -> option (nat * list NativeTool))
    (o : MCPOrchestrator) (entries : list (string * ServerSpec))
    : MCPOrchestrator * list string * option string :=
  match entries with
  | [] => (o, [], None)
  | (name, spec) :: rest =>
      match connect name spec with
      | None => (o, [name], Some name)
      | Some (client, tools) =>
          let '(o', tried, failed) :=
            registerServersFromConfig connect (registerServer o name client tools) rest in
          (o', name :: tried, failed)
      end
  end.

(** Entry [e] of the configuration connected and listed the tools of
    registration [r]. *)
Definition connected (connect : string -> ServerSpec -> option (nat * list NativeTool))
    (e : string * ServerSpec) (r : Registration) : Prop :=
  reg_name r = fst e /\ connect (fst e) (snd e) = Some (reg_client r, reg_tools r).

(** [this.llm.chat] of the orchestrator [main] builds: [new Claude(key)] or
    [new GPT(key)]; [claude_api key] and [gpt_api key] are the SDK clients
    the constructors create. *)
Definition llm_chat_of (claude_api : string -> Adapters.AnthropicRequest -> option Adapters.AnthropicResponse)
    (gpt_api : string -> Adapters.OpenAIRequest -> option ModelResponse) (llm : LLMKind)
    : list ChatRequest -> ChatRequest -> option ModelResponse :=
  fun _ req =>
    match llm with
    | KClaude k => Adapters.claude_chat (claude_api k) (req_messages req) (req_tools req) (req_tool_choice req)
    | KGPT k => Adapters.gpt_chat (gpt_api k) (req_messages req) (req_tools req) (req_tool_choice req)
    end.

End Startup.

(** ** [cleanup] and the query loop of [main] *)

Module Session.

(** [cleanup]: [await server.client.close()] for every server in map
    order; [close] says whether the close resolves.  The result lists the
    connections a close was attempted on and whether all resolved. *)
Fixpoint close_all (close : nat -> bool) (l : list (string * MCPServer)) : list nat * bool :=
  match l with
  | [] => ([], true)
  | (_, srv) :: r =>
      if close (srv_client srv) then
        let '(cs, ok) := close_all close r in (srv_client srv :: cs, ok)
      else ([srv_client srv], false)
  end.

Definition cleanup (close : nat -> bool) (o : MCPOrchestrator) : list nat * bool :=
  close_all close (servers o).

(** ASCII [toLowerCase]; code units 128-255 never lower-case to ASCII. *)
Definition lower_char (c : ascii) : ascii :=
  let n := nat_of_ascii c in
  if Nat.leb 65 n && Nat.leb n 90 then ascii_of_nat (n + 32) else c.

Fixpoint to_lower (s : string) : string :=
  match s with
  | EmptyString => EmptyString
  | String c r => String (lower_char c) (to_lower r)
  end.

(** [message.toLowerCase() === "quit"] *)
Definition is_quit (line : string) : bool := String.eqb (to_lower line) "quit".

(** How the query loop ends.  [ENoExit]: the input ended before a quit
    line, and the loop never finishes.  In index.ts the pending
    [rl.question] never settles, so [finally] is not reached.  The earlier
    client's [catch] takes the error of the closed interface and goes round
    again forever.  The outputs listed are those printed before the end of
    the input. *)
Inductive Ending := EQuit | EError (e : Error) | ENoExit.

(** The [while (true)] loop of index.ts: each line is either "quit" or a
    query whose answer is printed; a rejected query leaves the loop. *)
Fixpoint repl (query : string -> M string) (lines : list string) (s : St)
    : list string * St * Ending :=
  match lines with
  | [] => ([], s, ENoExit)
  | l :: rest =>
      if is_quit l then ([], s, EQuit)
      else match query l s with
           | Ok a s' => let '(p, s'', e) := repl query rest s' in (a :: p, s'', e)
           | Err e s' => ([], s', EError e)
           end
  end.

Record SessionResult := {
  printed : list string;
  ending : Ending;
  closed : list nat;
  exit_called : bool   (* [process.exit(0)] reached in [finally] *)
}.

(** The [try { ... } finally { rl.close(); await orchestrator.cleanup();
    process.exit(0); }] block of [main].  When the loop never finishes,
    [finally] is not run. *)
Definition session (close : nat -> bool) (o : MCPOrchestrator) (query : string -> M string)
    (lines : list string) (s : St) : SessionResult :=
  let '(p, _, e) := repl query lines s in
  match e with
  | ENoExit => {| printed := p; ending := e; closed := []; exit_called := false |}
  | _ =>
      let '(cs, ok) := cleanup close o in
      {| printed := p; ending := e; closed := cs; exit_called := ok |}
  end.

(** [main] after [loadConfig]: [registerServersFromConfig] runs before the
    [try]; its rejection (here: the name whose connection failed) leaves
    [main] without reaching [finally].  [query o] is [orchestrator.processQuery]. *)
Definition main_from_config (connect : string -> Startup.ServerSpec -> option (nat * list NativeTool))
    (close : nat -> bool) (prompt : string) (entries : list (string * Startup.ServerSpec))
    (query : MCPOrchestrator -> string -> M string) (lines : list string) (s : St)
    : string + SessionResult :=
  let '(o, _, failed) :=
    Startup.registerServersFromConfig connect (new_orchestrator prompt) entries in
  match failed with
  | Some name => inl name
  | None => inr (session close o (query o) lines s)
  end.

(** What one iteration of the loop of the earlier client (unnamed/part_001)
    prints: the answer, or the error caught around the query. *)
Inductive Printed := PAnswer (a : string) | PError (e : Error).

(** Its loop: the [try]/[catch] inside [while (true)] keeps going after a
    rejected query. *)
Fixpoint repl_catch (query : string -> M string) (lines : list string) (s : St)
    : list Printed * St * Ending :=
  match lines with
  | [] => ([], s, ENoExit)
  | l :: rest =>
      if is_quit l then ([], s, EQuit)
      else match query l s with
           | Ok a s' => let '(p, s'', e) := repl_catch query rest s' in (PAnswer a :: p, s'', e)
           | Err err s' => let '(p, s'', e) := repl_catch query rest s' in (PError err :: p, s'', e)
           end
  end.

End Session.

(** ** Concrete start-up and session scenarios *)

Module Runs.

Definition spec (script : string) : Startup.ServerSpec :=
  {| Startup.spec_command := "node"; Startup.spec_args := [script];
     Startup.spec_env := None |}.

(** Servers [files] and [math] start; any other fails to connect. *)
Definition connect (name : string) (_ : Startup.ServerSpec) : option (nat * list NativeTool) :=
  if String.eqb name "files" then Some (1, [Scenario.native "read"])
  else if String.eqb name "math" then Some (2, [Scenario.native "add"])
  else None.

Definition entries : list (string * Startup.ServerSpec) :=
  [("files", spec "files.js"); ("math", spec "math.js")].

Definition close_ok (_ : nat) : bool := true.

(** Closing connection 2 rejects. *)
Definition close_fails_2 (c : nat) : bool := negb (Nat.eqb c 2).

(** A query that the model rejects for the input ["boom"]. *)
Definition query (line : string) : M string :=
  fun s => if String.eqb line "boom" then Err ProviderError s else Ok line s.

End Runs.

(** * Lemmas *)

(** ** Names *)

Lemma sanitize_app (a b : string) : sanitize (a ++ b) = sanitize a ++ sanitize b.
Proof. induction a as [|c a IH]; simpl; [reflexivity | now rewrite IH]. Qed.

Lemma sanitize_safe (n : string) : tool_name_safe n = true -> sanitize n = n.
Proof.
  unfold tool_name_safe; induction n as [|c n IH]; simpl; [reflexivity|].
  intros H; apply andb_prop in H as [Hc Hn]; rewrite Hc, IH; auto.
Qed.

Lemma server_name_safe_tool (n : string) : server_name_safe n = true -> tool_name_safe n = true.
Proof.
  unfold server_name_safe, tool_name_safe; induction n as [|c n IH]; simpl; [reflexivity|].
  intros H; apply andb_prop in H as [Hc Hn]; apply andb_prop in Hc as [Hc _].
  rewrite Hc, IH; auto.
Qed.

Lemma split_underscore_0_prefix (n x : string) :
  server_name_safe n = true -> split_underscore_0 (n ++ String underscore x) = n.
Proof.
  unfold server_name_safe; induction n as [|c n IH]; simpl; intros H.
  - reflexivity.
  - apply andb_prop in H as [Hc Hn]; apply andb_prop in Hc as [_ Hc].
    apply negb_true_iff in Hc; rewrite Hc, IH; auto.
Qed.

Lemma strip_prefix_app (p x : string) : strip_prefix p (p ++ x) = Some x.
Proof.
  induction p as [|c p IH]; simpl; [reflexivity|].
  now rewrite Ascii.eqb_refl.
Qed.

Lemma replace_first_unfold (pat rep s : string) :
  replace_first pat rep s =
  match strip_prefix pat s with
  | Some rest => rep ++ rest
  | None => match s with
            | EmptyString => EmptyString
            | String c r => String c (replace_first pat rep r)
            end
  end.
Proof. destruct s; reflexivity. Qed.

Lemma replace_first_prefix (p x : string) : replace_first p "" (p ++ x) = x.
Proof. rewrite replace_first_unfold, strip_prefix_app; reflexivity. Qed.

Lemma qualified_name_safe_server (n : string) (t : NativeTool) :
  server_name_safe n = true ->
  fn_name (tool_function (to_function n t)) = n ++ String underscore (sanitize (nt_name t)).
Proof.
  intros H; simpl; rewrite sanitize_app, (sanitize_safe n (server_name_safe_tool n H)).
  reflexivity.
Qed.

(** Qualified names of safe server names determine server and tool name. *)
Lemma qualified_name_inj (n1 n2 t1 t2 : string) :
  server_name_safe n1 = true -> server_name_safe n2 = true ->
  n1 ++ String underscore t1 = n2 ++ String underscore t2 -> n1 = n2 /\ t1 = t2.
Proof.
  intros H1 H2 E.
  assert (En : n1 = n2).
  { rewrite <- (split_underscore_0_prefix n1 t1 H1), <- (split_underscore_0_prefix n2 t2 H2).
    now rewrite E. }
  subst n2; split; [reflexivity|].
  apply (f_equal (strip_prefix n1)) in E.
  rewrite !strip_prefix_app in E; congruence.
Qed.

(** ** The server map *)

Lemma map_get_set {V} (k k' : string) (v : V) (m : list (string * V)) :
  map_get k (map_set k' v m) = if String.eqb k k' then Some v else map_get k m.
Proof.
  induction m as [|[k0 v0] m IH]; simpl.
  - reflexivity.
  - destruct (String.eqb k' k0) eqn:E0; simpl.
    + apply String.eqb_eq in E0; subst k0; simpl.
      destruct (String.eqb k k'); reflexivity.
    + rewrite IH. destruct (String.eqb k k') eqn:E1; [|reflexivity].
      apply String.eqb_eq in E1; subst k'; rewrite E0; reflexivity.
Qed.

Lemma map_set_keys {V} (k : string) (v : V) (m : list (string * V)) :
  map_get k m <> None -> map fst (map_set k v m) = map fst m.
Proof.
  induction m as [|[k0 v0] m IH]; simpl; intros H; [congruence|].
  destruct (String.eqb k k0); simpl; [reflexivity|].
  now rewrite IH.
Qed.

Lemma registerAll_cons (o : MCPOrchestrator) (r : Registration) (regs : list Registration) :
  registerAll o (r :: regs) = registerAll (registerServer o (reg_name r) (reg_client r) (reg_tools r)) regs.
Proof. reflexivity. Qed.

Lemma registerAll_allFunctions (o : MCPOrchestrator) (regs : list Registration) :
  allFunctions (registerAll o regs) =
  (allFunctions o ++ flat_map (fun r => map (to_function (reg_name r)) (reg_tools r)) regs)%list.
Proof.
  revert o; induction regs as [|r regs IH]; intros o.
  - simpl; now rewrite app_nil_r.
  - rewrite registerAll_cons, IH; simpl; now rewrite app_assoc.
Qed.

Lemma registerAll_get_notin (o : MCPOrchestrator) (regs : list Registration) (n : string) :
  ~ In n (map reg_name regs) -> map_get n (servers (registerAll o regs)) = map_get n (servers o).
Proof.
  revert o; induction regs as [|r regs IH]; intros o Hn; [reflexivity|].
  simpl in Hn; rewrite registerAll_cons, IH by tauto; simpl; rewrite map_get_set.
  destruct (String.eqb n (reg_name r)) eqn:E; [|reflexivity].
  apply String.eqb_eq in E; exfalso; apply Hn; left; symmetry; exact E.
Qed.

Lemma registerAll_get_in (o : MCPOrchestrator) (regs : list Registration) (r : Registration) :
  NoDup (map reg_name regs) -> In r regs ->
  map_get (reg_name r) (servers (registerAll o regs)) = Some (binding_of r).
Proof.
  revert o; induction regs as [|r0 regs IH]; intros o Hnd Hin; [destruct Hin|].
  simpl in Hnd; inversion Hnd as [|x l Hnotin Hnd']; subst.
  rewrite registerAll_cons. destruct Hin as [<- | Hin].
  - rewrite registerAll_get_notin by assumption; simpl.
    rewrite map_get_set, String.eqb_refl; reflexivity.
  - now apply IH.
Qed.

(** ** The dispatch loop *)

Open Scope list_scope.

Section Dispatch.

Variable call_tool : list Invocation -> Invocation -> option ToolResult.
Variable json_parse : string -> option json.
Variable o : MCPOrchestrator.

Lemma dispatch_call_chat_log (c : ToolCall) (s : St) :
  chat_log (state_of (dispatch_call call_tool json_parse o c s)) = chat_log s.
Proof.
  unfold dispatch_call, bind, from_sum, from_option, callTool, push_messages, ret, throw.
  destruct (resolve_tool o c) as [e|[srv n]]; [reflexivity|].
  destruct (json_parse (call_arguments c)); [|reflexivity].
  destruct (call_tool _ _); reflexivity.
Qed.

(** A failed call appends nothing to the history. *)
Lemma dispatch_call_err (c : ToolCall) (s s' : St) (e : Error) :
  dispatch_call call_tool json_parse o c s = Err e s' -> history s' = history s.
Proof.
  unfold dispatch_call, bind, from_sum, from_option, callTool, push_messages, ret, throw.
  intros H; destruct (resolve_tool o c) as [e'|[srv n]]; [now inversion H|].
  destruct (json_parse (call_arguments c)); [|now inversion H].
  destruct (call_tool _ _); inversion H; reflexivity.
Qed.

Lemma dispatch_call_ok (c : ToolCall) (s s' : St) (u : unit) :
  dispatch_call call_tool json_parse o c s = Ok u s' ->
  exists inv r, forward json_parse o c = Some inv /\
    tool_log s' = tool_log s ++ [inv] /\
    history s' = history s ++ [assistant_call_message c; tool_message c (tool_content r)].
Proof.
  unfold dispatch_call, forward, bind, from_sum, from_option, callTool, push_messages, ret, throw.
  destruct (resolve_tool o c) as [e'|[srv n]]; [congruence|].
  destruct (json_parse (call_arguments c)) as [args|]; [|congruence].
  destruct (call_tool _ _) as [res|]; simpl; [|congruence].
  intros H; inversion H; subst; simpl.
  eexists _, (tr_content res); split; [reflexivity|]; split; reflexivity.
Qed.

Lemma dispatch_all_app (pre post : list ToolCall) (s : St) :
  dispatch_all call_tool json_parse o (pre ++ post) s =
  bind (dispatch_all call_tool json_parse o pre) (fun _ => dispatch_all call_tool json_parse o post) s.
Proof.
  revert s; induction pre as [|c pre IH]; intros s; simpl.
  - reflexivity.
  - unfold bind; destruct (dispatch_call call_tool json_parse o c s); [|reflexivity].
    rewrite IH; reflexivity.
Qed.

Lemma dispatch_all_chat_log (cs : list ToolCall) (s : St) :
  chat_log (state_of (dispatch_all call_tool json_parse o cs s)) = chat_log s.
Proof.
  revert s; induction cs as [|c cs IH]; intros s; simpl; [reflexivity|].
  unfold bind. pose proof (dispatch_call_chat_log c s) as Hc.
  destruct (dispatch_call call_tool json_parse o c s) as [u s1|e s1]; simpl in *;
    [rewrite IH|]; exact Hc.
Qed.

Lemma dispatch_all_ok (cs : list ToolCall) (s s' : St) (u : unit) :
  dispatch_all call_tool json_parse o cs s = Ok u s' ->
  exists invs ts,
    Forall2 (fun c inv => forward json_parse o c = Some inv) cs invs /\
    tool_log s' = tool_log s ++ invs /\
    length ts = length cs /\
    (forall t, In t ts -> exists r, t = tool_content r) /\
    history s' = history s ++ round_messages cs ts.
Proof.
  revert s; induction cs as [|c cs IH]; intros s H; simpl in H.
  - inversion H; subst. exists [], []; simpl; rewrite !app_nil_r.
    repeat split; auto; contradiction.
  - unfold bind in H.
    destruct (dispatch_call call_tool json_parse o c s) as [u1 s1|e s1] eqn:Hc; [|discriminate].
    apply dispatch_call_ok in Hc as (inv & r & Hf & Ht & Hh).
    destruct (IH s1 H) as (invs & ts & Hf' & Ht' & Hl & Hr & Hh').
    exists (inv :: invs), (tool_content r :: ts); repeat split.
    + constructor; assumption.
    + rewrite Ht', Ht, <- app_assoc; reflexivity.
    + simpl; now rewrite Hl.
    + intros t [<- | Ht0]; [eauto | now apply Hr].
    + rewrite Hh', Hh, <- app_assoc; reflexivity.
Qed.

Lemma dispatch_call_contents (c : ToolCall) (s : St) :
  tool_contents_ok (history s) ->
  tool_contents_ok (history (state_of (dispatch_call call_tool json_parse o c s))).
Proof.
  intros Hs.
  destruct (dispatch_call call_tool json_parse o c s) as [u s'|e s'] eqn:Hc; simpl.
  - apply dispatch_call_ok in Hc as (inv & r & _ & _ & ->).
    intros m Hm Hr; apply in_app_or in Hm as [Hm | Hm]; [now apply Hs|].
    destruct Hm as [<- | [<- | []]]; [discriminate | exists r; reflexivity].
  - now rewrite (dispatch_call_err c s s' e Hc).
Qed.

Lemma dispatch_all_contents (cs : list ToolCall) (s : St) :
  tool_contents_ok (history s) ->
  tool_contents_ok (history (state_of (dispatch_all call_tool json_parse o cs s))).
Proof.
  revert s; induction cs as [|c cs IH]; intros s Hs; simpl; [exact Hs|].
  unfold bind. pose proof (dispatch_call_contents c s Hs) as Hc.
  destruct (dispatch_call call_tool json_parse o c s) as [u s1|e s1]; simpl in *;
    [apply IH|]; exact Hc.
Qed.

End Dispatch.

(** ** [processQuery] step by step *)

Lemma processQuery_unfold llm_chat call_tool json_parse o q s :
  processQuery llm_chat call_tool json_parse o q s =
  let s1 := after_first_request o q s in
  match llm_chat (chat_log s) (query_request o q) with
  | None => Err ProviderError s1
  | Some result =>
      match hd_error (choices result) with
      | None => Err TypeError s1
      | Some response =>
          match tool_calls response with
          | None | Some [] => Ok (content_or_empty response) s1
          | Some calls =>
              match dispatch_all call_tool json_parse o calls s1 with
              | Err e s2 => Err e s2
              | Ok _ s2 =>
                  let s3 := {| history := history s2;
                               chat_log := chat_log s2 ++ [final_request (history s2)];
                               tool_log := tool_log s2 |} in
                  match llm_chat (chat_log s2) (final_request (history s2)) with
                  | None => Err ProviderError s3
                  | Some final =>
                      match hd_error (choices final) with
                      | None => Err TypeError s3
                      | Some msg => Ok (content_or_empty msg) s3
                      end
                  end
              end
          end
      end
  end.
Proof.
  unfold processQuery, bind, set_messages, get_messages, chat, first_choice, from_option,
    ret, throw, query_request, after_first_request, final_request, seed; simpl.
  destruct (llm_chat (chat_log s) _) as [result|]; [|reflexivity].
  destruct (hd_error (choices result)) as [response|]; [|reflexivity].
  destruct (tool_calls response) as [[|c cs]|]; try reflexivity.
  destruct (dispatch_all call_tool json_parse o (c :: cs) _); [|reflexivity].
  destruct (llm_chat _ _) as [final|]; [|reflexivity].
  destruct (hd_error (choices final)); reflexivity.
Qed.

Lemma app_one_two {A} (l : list A) (a b c : A) : l ++ [a] <> l ++ [b; c].
Proof. intros H; apply app_inv_head in H; discriminate. Qed.

Lemma tool_contents_ok_seed o q : tool_contents_ok (seed o q).
Proof. intros m [<- | [<- | []]]; discriminate. Qed.

(** * Claims *)

(** ** C1: rounds of the orchestration loop *)

(** C1 (counterexample): the model asks for a tool in both of its responses,
    yet [processQuery] performs a single dispatch round and terminates with
    the second response's text, whose tool calls are never dispatched. *)
Lemma C1_tools_requested_twice_one_round :
  (forall past req, Scenario.always_tools_llm past req =
                    Some (Scenario.reply "calling" [Scenario.add_call])) /\
  exists s',
    processQuery Scenario.always_tools_llm Scenario.four_backend Scenario.parse_args
      Scenario.math_files "what is 2+2" empty_state = Ok "calling" s' /\
    length (chat_log s') = 2 /\ length (tool_log s') = 1.
Proof.
  split; [reflexivity|].
  eexists; split; [reflexivity|]; split; reflexivity.
Qed.

Lemma dispatch_call_err_log call_tool json_parse o (c : ToolCall) (s s' : St) (e : Error) :
  dispatch_call call_tool json_parse o c s = Err e s' ->
  tool_log s' = tool_log s \/ exists inv, forward json_parse o c = Some inv /\ tool_log s' = tool_log s ++ [inv].
Proof.
  unfold dispatch_call, forward, bind, from_sum, from_option, callTool, push_messages, ret, throw.
  intros H; destruct (resolve_tool o c) as [e'|[srv n]]; [inversion H; left; reflexivity|].
  destruct (json_parse (call_arguments c)); [|inversion H; left; reflexivity].
  destruct (call_tool _ _); inversion H; subst; right; eexists; split; reflexivity.
Qed.

Lemma dispatch_all_tool_log call_tool json_parse o (cs : list ToolCall) (s : St) :
  exists pre post invs, cs = pre ++ post /\
    Forall2 (fun c inv => forward json_parse o c = Some inv) pre invs /\
    tool_log (state_of (dispatch_all call_tool json_parse o cs s)) = tool_log s ++ invs.
Proof.
  revert s; induction cs as [|c cs IH]; intros s.
  - exists [], [], []; split; [reflexivity|split; [constructor|simpl; now rewrite app_nil_r]].
  - simpl; unfold bind.
    destruct (dispatch_call call_tool json_parse o c s) as [u s1|e s1] eqn:Hc.
    + apply dispatch_call_ok in Hc as (inv & r & Hf & Ht & _).
      destruct (IH s1) as (pre & post & invs & -> & Hf' & Ht').
      exists (c :: pre), post, (inv :: invs); split; [reflexivity|split; [constructor; assumption|]].
      rewrite Ht', Ht, <- app_assoc; reflexivity.
    + apply dispatch_call_err_log in Hc as [Ht|(inv & Hf & Ht)]; simpl.
      * exists [], (c :: cs), []; split; [reflexivity|split; [constructor|rewrite Ht, app_nil_r; reflexivity]].
      * exists [c], cs, [inv]; split; [reflexivity|split; [constructor; [exact Hf|constructor]|exact Ht]].
Qed.

(** C1 (amended): [processQuery] makes at most two model calls and at most
    one dispatch round, on every run, failing ones included: the only tools
    invoked are those of a prefix of the tool calls of the first response.
    If the first response has no tool calls its content is the answer;
    otherwise, once the calls of that response are dispatched, the model is
    called a second time and that response's content is the answer whatever
    tool calls it carries. *)
Theorem processQuery_at_most_one_dispatch_round llm_chat call_tool json_parse o q s :
  let out := processQuery llm_chat call_tool json_parse o q s in
  let s' := state_of out in
  (chat_log s' = chat_log s ++ [query_request o q] \/
   exists h, chat_log s' = chat_log s ++ [query_request o q; final_request h]) /\
  (tool_log s' = tool_log s \/
   exists r1 m1 calls pre post invs,
     llm_chat (chat_log s) (query_request o q) = Some r1 /\
     hd_error (choices r1) = Some m1 /\ tool_calls m1 = Some calls /\
     calls = pre ++ post /\
     Forall2 (fun c inv => forward json_parse o c = Some inv) pre invs /\
     tool_log s' = tool_log s ++ invs) /\
  (forall r1 m1, llm_chat (chat_log s) (query_request o q) = Some r1 ->
     hd_error (choices r1) = Some m1 -> no_tool_calls m1 ->
     out = Ok (content_or_empty m1) (after_first_request o q s)) /\
  (forall r1 m1 c cs s2 final m2,
     llm_chat (chat_log s) (query_request o q) = Some r1 ->
     hd_error (choices r1) = Some m1 -> tool_calls m1 = Some (c :: cs) ->
     dispatch_all call_tool json_parse o (c :: cs) (after_first_request o q s) = Ok tt s2 ->
     llm_chat (chat_log s2) (final_request (history s2)) = Some final ->
     hd_error (choices final) = Some m2 ->
     out = Ok (content_or_empty m2)
             {| history := history s2; chat_log := chat_log s2 ++ [final_request (history s2)];
                tool_log := tool_log s2 |}).
Proof.
  cbv zeta; split; [|split; [|split]].
  - rewrite processQuery_unfold; cbv zeta.
    destruct (llm_chat (chat_log s) (query_request o q)) as [r1|]; [|left; reflexivity].
    destruct (hd_error (choices r1)) as [m1|]; [|left; reflexivity].
    destruct (tool_calls m1) as [[|c cs]|]; [left; reflexivity| |left; reflexivity].
    pose proof (dispatch_all_chat_log call_tool json_parse o (c :: cs) (after_first_request o q s))
      as Hcl.
    destruct (dispatch_all call_tool json_parse o (c :: cs) (after_first_request o q s))
      as [u s2|e s2]; simpl in Hcl; [|left; exact Hcl].
    right; exists (history s2).
    assert (Hc : chat_log s2 ++ [final_request (history s2)] =
                 chat_log s ++ [query_request o q; final_request (history s2)])
      by (rewrite Hcl, <- app_assoc; reflexivity).
    destruct (llm_chat _ _) as [final|]; [destruct (hd_error (choices final))|]; exact Hc.
  - rewrite processQuery_unfold; cbv zeta.
    destruct (llm_chat (chat_log s) (query_request o q)) as [r1|] eqn:E1; [|left; reflexivity].
    destruct (hd_error (choices r1)) as [m1|] eqn:E2; [|left; reflexivity].
    destruct (tool_calls m1) as [[|c cs]|] eqn:E3; [left; reflexivity| |left; reflexivity].
    right.
    destruct (dispatch_all_tool_log call_tool json_parse o (c :: cs) (after_first_request o q s))
      as (pre & post & invs & Hcs & Hf & Ht).
    exists r1, m1, (c :: cs), pre, post, invs.
    repeat split; try assumption.
    destruct (dispatch_all call_tool json_parse o (c :: cs) (after_first_request o q s))
      as [u s2|e s2]; simpl in Ht; [|exact Ht].
    destruct (llm_chat (chat_log s2) (final_request (history s2))) as [final|];
      [destruct (hd_error (choices final))|]; exact Ht.
  - intros r1 m1 E1 E2 [E3|E3]; rewrite processQuery_unfold; cbv zeta; rewrite E1, E2, E3; reflexivity.
  - intros r1 m1 c cs s2 final m2 E1 E2 E3 Ed E4 E5.
    rewrite processQuery_unfold; cbv zeta; rewrite E1, E2, E3, Ed, E4, E5; reflexivity.
Qed.

(** Witness of C1: the model asks for [math_add] in both of its responses;
    the second response is answered, its tool call is not dispatched. *)
Lemma processQuery_at_most_one_dispatch_round_witness :
  exists s2,
    dispatch_all Scenario.four_backend Scenario.parse_args Scenario.math_files [Scenario.add_call]
      (after_first_request Scenario.math_files "what is 2+2" empty_state) = Ok tt s2 /\
    processQuery Scenario.always_tools_llm Scenario.four_backend Scenario.parse_args
      Scenario.math_files "what is 2+2" empty_state =
    Ok (content_or_empty {| role := RAssistant; content := Some "calling";
                            tool_calls := Some [Scenario.add_call]; tool_call_id := None |})
       {| history := history s2; chat_log := chat_log s2 ++ [final_request (history s2)];
          tool_log := tool_log s2 |}.
Proof.
  eexists; split; [reflexivity|].
  refine (proj2 (proj2 (proj2 (processQuery_at_most_one_dispatch_round Scenario.always_tools_llm
            Scenario.four_backend Scenario.parse_args Scenario.math_files "what is 2+2" empty_state)))
            _ _ Scenario.add_call [] _ (Scenario.reply "calling" [Scenario.add_call]) _
            _ _ _ _ _ _); reflexivity.
Defined.

(** ** C5: the arguments of each model call *)

(** C5 (counterexample): in the scenario of the spec, the second model call
    of the query is not given the registry's tool set. *)
Lemma second_model_call_has_no_tools :
  exists r2,
    nth_error (chat_log (state_of (processQuery Scenario.one_round_llm Scenario.four_backend
      Scenario.parse_args Scenario.math_files "what is 2+2" empty_state))) 1 = Some r2 /\
    req_tools r2 = [] /\ allFunctions Scenario.math_files <> [].
Proof.
  eexists; split; [reflexivity|]; split; [reflexivity | discriminate].
Qed.

(** C5 (amended): the first model call gets the seed history, every
    registered tool and ["auto"]; the second one, made only after a dispatch
    round, gets the full updated history, an empty tool list and ["auto"]
    (the defaults of [llm.chat]).  No other model call is made. *)
Theorem processQuery_model_requests llm_chat call_tool json_parse o q s :
  let s' := state_of (processQuery llm_chat call_tool json_parse o q s) in
  chat_log s' = chat_log s ++
    [{| req_messages := seed o q; req_tools := allFunctions o; req_tool_choice := Auto |}]
  \/
  exists r2, chat_log s' = chat_log s ++
    [{| req_messages := seed o q; req_tools := allFunctions o; req_tool_choice := Auto |}; r2] /\
    req_messages r2 = history s' /\ req_tools r2 = [] /\ req_tool_choice r2 = Auto.
Proof.
  cbv zeta; rewrite processQuery_unfold; cbv zeta.
  destruct (llm_chat (chat_log s) (query_request o q)) as [r1|]; [|left; reflexivity].
  destruct (hd_error (choices r1)) as [m1|]; [|left; reflexivity].
  destruct (tool_calls m1) as [[|c cs]|]; [left; reflexivity| |left; reflexivity].
  pose proof (dispatch_all_chat_log call_tool json_parse o (c :: cs) (after_first_request o q s))
    as Hcl.
  destruct (dispatch_all call_tool json_parse o (c :: cs) (after_first_request o q s))
    as [u s2|e s2]; simpl in Hcl; [|left; exact Hcl].
  right; exists (final_request (history s2)).
  assert (Hc : chat_log s2 ++ [final_request (history s2)] =
               chat_log s ++ [query_request o q; final_request (history s2)])
    by (rewrite Hcl, <- app_assoc; reflexivity).
  destruct (llm_chat _ _) as [final|]; [destruct (hd_error (choices final))|];
    simpl; repeat split; exact Hc.
Qed.

(** ** C9: messages appended by a dispatch round *)

Lemma dispatch_call_ok_result call_tool json_parse o (c : ToolCall) (s s' : St) (u : unit) :
  dispatch_call call_tool json_parse o c s = Ok u s' ->
  exists inv r, forward json_parse o c = Some inv /\ call_tool (tool_log s) inv = Some r /\
    tool_log s' = tool_log s ++ [inv] /\
    history s' = history s ++ [assistant_call_message c; tool_message c (tool_content (tr_content r))].
Proof.
  unfold dispatch_call, forward, bind, from_sum, from_option, callTool, push_messages, ret, throw.
  destruct (resolve_tool o c) as [e'|[srv n]]; [congruence|].
  destruct (json_parse (call_arguments c)) as [args|]; [|congruence].
  destruct (call_tool _ _) as [res|] eqn:Ec; simpl; [|congruence].
  intros H; inversion H; subst; simpl.
  eexists _, res; repeat split; assumption.
Qed.

Lemma dispatch_all_ok_results call_tool json_parse o (cs : list ToolCall) (s s' : St) (u : unit) :
  dispatch_all call_tool json_parse o cs s = Ok u s' ->
  exists invs rs,
    Forall2 (fun c inv => forward json_parse o c = Some inv) cs invs /\
    tool_log s' = tool_log s ++ invs /\
    tool_results call_tool (tool_log s) invs = Some rs /\
    history s' = history s ++ round_messages cs (map (fun r => tool_content (tr_content r)) rs).
Proof.
  revert s; induction cs as [|c cs IH]; intros s H; simpl in H.
  - inversion H; subst. exists [], []; simpl; rewrite !app_nil_r; repeat split; constructor.
  - unfold bind in H.
    destruct (dispatch_call call_tool json_parse o c s) as [u1 s1|e s1] eqn:Hc; [|discriminate].
    apply dispatch_call_ok_result in Hc as (inv & r & Hf & Hr & Ht & Hh).
    destruct (IH s1 H) as (invs & rs & Hf' & Ht' & Hrs & Hh').
    exists (inv :: invs), (r :: rs); repeat split.
    + constructor; assumption.
    + rewrite Ht', Ht, <- app_assoc; reflexivity.
    + simpl; rewrite Hr, <- Ht, Hrs; reflexivity.
    + rewrite Hh', Hh, <- app_assoc; reflexivity.
Qed.

(** C9: when the next model round takes place, its history is the seed
    followed, for each tool call of the first response in the model's
    order, by one assistant message carrying that single call and one tool
    message whose correlation id is the call's id and whose content is the
    result the backend gave for that call; the calls were invoked one after
    the other in that same order, each backend seeing the invocations made
    before it.  With one call, exactly two messages are appended. *)
Theorem processQuery_round_messages llm_chat call_tool json_parse o q s r2 :
  chat_log (state_of (processQuery llm_chat call_tool json_parse o q s)) =
    chat_log s ++ [query_request o q; r2] ->
  exists r1 m1 calls invs rs,
    llm_chat (chat_log s) (query_request o q) = Some r1 /\
    hd_error (choices r1) = Some m1 /\
    tool_calls m1 = Some calls /\
    Forall2 (fun c inv => forward json_parse o c = Some inv) calls invs /\
    tool_log (state_of (processQuery llm_chat call_tool json_parse o q s)) = tool_log s ++ invs /\
    tool_results call_tool (tool_log s) invs = Some rs /\
    req_messages r2 =
      seed o q ++ round_messages calls (map (fun r => tool_content (tr_content r)) rs).
Proof.
  rewrite processQuery_unfold; cbv zeta; intros H.
  destruct (llm_chat (chat_log s) (query_request o q)) as [r1|] eqn:E1;
    [|exfalso; exact (app_one_two _ _ _ _ H)].
  destruct (hd_error (choices r1)) as [m1|] eqn:E2;
    [|exfalso; exact (app_one_two _ _ _ _ H)].
  destruct (tool_calls m1) as [[|c cs]|] eqn:E3;
    try (exfalso; exact (app_one_two _ _ _ _ H)).
  pose proof (dispatch_all_chat_log call_tool json_parse o (c :: cs) (after_first_request o q s))
    as Hcl.
  destruct (dispatch_all call_tool json_parse o (c :: cs) (after_first_request o q s))
    as [u s2|e s2] eqn:Ed; simpl in Hcl;
    [|simpl in H; rewrite Hcl in H; exfalso; exact (app_one_two _ _ _ _ H)].
  apply dispatch_all_ok_results in Ed as (invs & rs & Hf & Ht & Hrs & Hh).
  assert (Hc : chat_log s2 ++ [final_request (history s2)] =
               chat_log s ++ [query_request o q; final_request (history s2)])
    by (rewrite Hcl, <- app_assoc; reflexivity).
  exists r1, m1, (c :: cs), invs, rs.
  destruct (llm_chat (chat_log s2) (final_request (history s2))) as [final|];
    [destruct (hd_error (choices final))|];
    simpl in H |- *; rewrite Hc in H; apply app_inv_head in H; injection H as <-;
    repeat split; auto.
Qed.

(** Witness of C9: the spec's [math_add] scenario. *)
Lemma processQuery_round_messages_witness :
  exists r2,
    chat_log (state_of (processQuery Scenario.one_round_llm Scenario.four_backend
      Scenario.parse_args Scenario.math_files "what is 2+2" empty_state)) =
      [] ++ [query_request Scenario.math_files "what is 2+2"; r2] /\
    exists r1 m1 calls invs rs,
      Scenario.one_round_llm [] (query_request Scenario.math_files "what is 2+2") = Some r1 /\
      hd_error (choices r1) = Some m1 /\
      tool_calls m1 = Some calls /\
      Forall2 (fun c inv => forward Scenario.parse_args Scenario.math_files c = Some inv)
        calls invs /\
      tool_log (state_of (processQuery Scenario.one_round_llm Scenario.four_backend
        Scenario.parse_args Scenario.math_files "what is 2+2" empty_state)) = [] ++ invs /\
      tool_results Scenario.four_backend [] invs = Some rs /\
      req_messages r2 = seed Scenario.math_files "what is 2+2" ++
        round_messages calls (map (fun r => tool_content (tr_content r)) rs).
Proof.
  eexists; split; [reflexivity|].
  apply (processQuery_round_messages Scenario.one_round_llm Scenario.four_backend
           Scenario.parse_args Scenario.math_files "what is 2+2" empty_state).
  reflexivity.
Defined.

(** ** C10: tool messages carry string content *)

(** C10: every tool message in the history of a query has string content:
    the result's content itself when it is a string, its JSON text when it
    is another JSON value, and the two-character text of [JSON.stringify("")]
    when it is undefined or null. *)
Theorem processQuery_tool_messages_string llm_chat call_tool json_parse o q s :
  tool_contents_ok (history (state_of (processQuery llm_chat call_tool json_parse o q s))) /\
  (forall str, tool_content (Some (JStr str)) = str) /\
  (forall v, (forall str, v <> JStr str) -> v <> JNull -> tool_content (Some v) = json_stringify v) /\
  tool_content None = String quote_char (String quote_char EmptyString) /\
  tool_content (Some JNull) = String quote_char (String quote_char EmptyString).
Proof.
  split; [|split; [reflexivity|split; [|split; reflexivity]]].
  - rewrite processQuery_unfold; cbv zeta.
    destruct (llm_chat (chat_log s) (query_request o q)) as [r1|];
      [|apply tool_contents_ok_seed].
    destruct (hd_error (choices r1)) as [m1|]; [|apply tool_contents_ok_seed].
    destruct (tool_calls m1) as [[|c cs]|]; try apply tool_contents_ok_seed.
    pose proof (dispatch_all_contents call_tool json_parse o (c :: cs)
                  (after_first_request o q s) (tool_contents_ok_seed o q)) as Hc.
    destruct (dispatch_all call_tool json_parse o (c :: cs) (after_first_request o q s))
      as [u s2|e s2]; simpl in Hc; [|exact Hc].
    destruct (llm_chat _ _) as [final|]; [destruct (hd_error (choices final))|]; exact Hc.
  - intros v Hs Hn; destruct v; try reflexivity; [congruence | exfalso; eapply Hs; reflexivity].
Qed.

(** ** C2: uniqueness of qualified names *)

Lemma qualified_name_safe (n : string) (t : NativeTool) :
  server_name_safe n = true -> tool_name_safe (nt_name t) = true ->
  fn_name (tool_function (to_function n t)) = (n ++ String underscore (nt_name t))%string.
Proof.
  intros Hn Ht; rewrite qualified_name_safe_server by exact Hn.
  now rewrite sanitize_safe.
Qed.

Lemma in_registered_names (regs : list Registration) (a : string) :
  In a (map (fun f => fn_name (tool_function f))
          (flat_map (fun r => map (to_function (reg_name r)) (reg_tools r)) regs)) ->
  exists r t, In r regs /\ In t (reg_tools r) /\ a = fn_name (tool_function (to_function (reg_name r) t)).
Proof.
  intros H; apply in_map_iff in H as (f & <- & Hf).
  apply in_flat_map in Hf as (r & Hr & Hf).
  apply in_map_iff in Hf as (t & <- & Ht).
  exists r, t; auto.
Qed.

Lemma server_names_nodup (n : string) (tools : list NativeTool) :
  server_name_safe n = true ->
  Forall (fun t => tool_name_safe (nt_name t) = true) tools ->
  NoDup (map nt_name tools) ->
  NoDup (map (fun f => fn_name (tool_function f)) (map (to_function n) tools)).
Proof.
  intros Hn; induction tools as [|t tools IH]; intros Hs Hnd; cbn [map]; [constructor|].
  inversion Hs as [|? ? Ht Hs']; inversion Hnd as [|? ? Hnotin Hnd']; subst.
  constructor; [|now apply IH].
  rewrite map_map; intros Hin; apply in_map_iff in Hin as (t' & Heq & Hin).
  apply Forall_forall with (x := t') in Hs'; [|exact Hin].
  rewrite !qualified_name_safe in Heq by assumption.
  apply qualified_name_inj in Heq as [_ Heq]; [|exact Hn|exact Hn].
  apply Hnotin; rewrite <- Heq; now apply in_map.
Qed.

(** C2 (counterexample): the server ["a_b"] with tool ["c"] and the server
    ["a"] with tool ["b_c"] get the same qualified name ["a_b_c"]. *)
Lemma qualified_names_collide :
  qualified_names (Scenario.orch [Scenario.reg "a_b" 1 ["c"]; Scenario.reg "a" 2 ["b_c"]])
    = ["a_b_c"; "a_b_c"] /\
  ~ NoDup (qualified_names
             (Scenario.orch [Scenario.reg "a_b" 1 ["c"]; Scenario.reg "a" 2 ["b_c"]])).
Proof.
  split; [reflexivity|].
  change (qualified_names _) with ["a_b_c"; "a_b_c"].
  intros H; inversion H as [|x l Hnotin _]; apply Hnotin; left; reflexivity.
Qed.

(** C2 (amended): when the registered server names are pairwise distinct
    and made only of letters, digits and '-', and each server's native tool
    names are pairwise distinct and made only of letters, digits, '_' and
    '-', every qualified name in the flattened tool list is distinct. *)
Theorem qualified_names_unique (prompt : string) (regs : list Registration) :
  NoDup (map reg_name regs) -> registry_safe regs ->
  NoDup (qualified_names (registerAll (new_orchestrator prompt) regs)).
Proof.
  unfold qualified_names; rewrite registerAll_allFunctions; simpl.
  induction regs as [|r regs IH]; intros Hnd Hsafe; simpl; [constructor|].
  inversion Hnd as [|? ? Hnotin Hnd']; inversion Hsafe as [|? ? (Hn & Ht & Htn) Hsafe']; subst.
  rewrite map_app; apply NoDup_app.
  - now apply server_names_nodup.
  - now apply IH.
  - intros a Ha Hb.
    rewrite map_map in Ha; apply in_map_iff in Ha as (t & <- & Hint).
    apply in_registered_names in Hb as (r' & t' & Hr' & Hint' & Heq).
    pose proof (proj1 (Forall_forall _ _) Hsafe' r' Hr') as (Hn' & Ht' & _).
    rewrite (qualified_name_safe _ t Hn (proj1 (Forall_forall _ _) Ht t Hint)) in Heq.
    rewrite (qualified_name_safe _ t' Hn' (proj1 (Forall_forall _ _) Ht' t' Hint')) in Heq.
    apply qualified_name_inj in Heq as [Heq _]; [|exact Hn|exact Hn'].
    apply Hnotin; rewrite Heq; now apply in_map.
Qed.

(** Witness of C2: the spec's scenario, two servers exposing [read]. *)
Lemma qualified_names_unique_witness :
  NoDup (map reg_name [Scenario.reg "files" 1 ["read"]; Scenario.reg "math" 2 ["add"; "read"]]) /\
  registry_safe [Scenario.reg "files" 1 ["read"]; Scenario.reg "math" 2 ["add"; "read"]] /\
  NoDup (qualified_names Scenario.math_files).
Proof.
  assert (Hnd : NoDup (map reg_name [Scenario.reg "files" 1 ["read"];
                                      Scenario.reg "math" 2 ["add"; "read"]])).
  { simpl; repeat constructor; simpl; try (intros [H|[]]; discriminate); intros []. }
  assert (Hs : registry_safe [Scenario.reg "files" 1 ["read"]; Scenario.reg "math" 2 ["add"; "read"]]).
  { unfold registry_safe; simpl.
    repeat constructor; simpl; try reflexivity; try (intros [H|[]]; discriminate);
    intros []. }
  split; [exact Hnd|]; split; [exact Hs|].
  exact (qualified_names_unique "You are an agent." _ Hnd Hs).
Defined.

(** ** C3 and C7: resolving a qualified name *)

Lemma string_app_assoc (a b c : string) : ((a ++ b) ++ c)%string = (a ++ (b ++ c))%string.
Proof. induction a as [|x a IH]; simpl; [reflexivity | now rewrite IH]. Qed.

Lemma find_tool_name (o : MCPOrchestrator) (d : ChatCompletionTool) (name : string) :
  In d (allFunctions o) -> fn_name (tool_function d) = name ->
  exists f, find_tool o name = Some f /\ fn_name (tool_function f) = name.
Proof.
  intros Hin Hd; unfold find_tool.
  destruct (find _ (allFunctions o)) as [f|] eqn:Ef.
  - apply find_some in Ef as [_ Ef]; apply String.eqb_eq in Ef; eauto.
  - eapply find_none in Ef; [|exact Hin]; simpl in Ef.
    rewrite Hd, String.eqb_refl in Ef; discriminate.
Qed.

(** Resolution of a descriptor contributed by a server with a safe name. *)
Lemma resolve_registered (prompt : string) (regs : list Registration) (r : Registration)
    (t : NativeTool) (c : ToolCall) :
  NoDup (map reg_name regs) -> In r regs -> In t (reg_tools r) ->
  server_name_safe (reg_name r) = true ->
  call_name c = fn_name (tool_function (to_function (reg_name r) t)) ->
  resolve_tool (registerAll (new_orchestrator prompt) regs) c =
    inr (binding_of r, sanitize (nt_name t)).
Proof.
  intros Hnd Hr Ht Hn Hc.
  set (o := registerAll (new_orchestrator prompt) regs).
  assert (Hin : In (to_function (reg_name r) t) (allFunctions o)).
  { unfold o; rewrite registerAll_allFunctions; simpl.
    apply in_flat_map; exists r; split; [exact Hr|]; now apply in_map. }
  destruct (find_tool_name o _ (call_name c) Hin (eq_sym Hc)) as (f & Hf & Hfn).
  unfold resolve_tool; rewrite Hf, Hfn, Hc, qualified_name_safe_server by exact Hn.
  rewrite split_underscore_0_prefix by exact Hn.
  unfold o; rewrite registerAll_get_in by assumption.
  change (String underscore (sanitize (nt_name t))) with ("_" ++ sanitize (nt_name t))%string.
  rewrite <- string_app_assoc, replace_first_prefix; reflexivity.
Qed.

(** C3 (counterexample): the descriptor ["my_srv_t"] contributed by the
    server ["my_srv"] resolves to the server ["my"]. *)
Lemma resolve_underscore_server_wrong :
  In (to_function "my_srv" (Scenario.native "t"))
     (srv_functions (binding_of (Scenario.reg "my_srv" 2 ["t"]))) /\
  map_get "my_srv" (servers (Scenario.orch [Scenario.reg "my" 1 ["x"]; Scenario.reg "my_srv" 2 ["t"]]))
    = Some (binding_of (Scenario.reg "my_srv" 2 ["t"])) /\
  resolve_tool (Scenario.orch [Scenario.reg "my" 1 ["x"]; Scenario.reg "my_srv" 2 ["t"]])
    (Scenario.call "call_1" "my_srv_t" "{}")
    = inr (binding_of (Scenario.reg "my" 1 ["x"]), "srv_t").
Proof. split; [left; reflexivity|]; split; reflexivity. Qed.

(** C3 (amended): with pairwise distinct server names, resolving the
    qualified name of a descriptor yields the server that contributed it
    whenever that server's name is made only of letters, digits and '-'. *)
Theorem resolve_contributing_server (prompt : string) (regs : list Registration)
    (r : Registration) (t : NativeTool) (c : ToolCall) :
  NoDup (map reg_name regs) -> In r regs -> In t (reg_tools r) ->
  server_name_safe (reg_name r) = true ->
  call_name c = fn_name (tool_function (to_function (reg_name r) t)) ->
  exists toolName,
    resolve_tool (registerAll (new_orchestrator prompt) regs) c = inr (binding_of r, toolName).
Proof.
  intros Hnd Hr Ht Hn Hc; exists (sanitize (nt_name t)).
  exact (resolve_registered prompt regs r t c Hnd Hr Ht Hn Hc).
Qed.

(** Witness of C3: [files_read] and [math_read] of the spec's scenario. *)
Lemma resolve_contributing_server_witness :
  exists toolName,
    resolve_tool (registerAll (new_orchestrator "You are an agent.")
                   [Scenario.reg "files" 1 ["read"]; Scenario.reg "math" 2 ["add"; "read"]])
      (Scenario.call "call_1" "math_read" "{}")
    = inr (binding_of (Scenario.reg "math" 2 ["add"; "read"]), toolName).
Proof.
  apply (resolve_contributing_server "You are an agent." _ (Scenario.reg "math" 2 ["add"; "read"])
           (Scenario.native "read")).
  - simpl; repeat constructor; simpl; try (intros [H|[]]; discriminate); intros [].
  - right; left; reflexivity.
  - right; left; reflexivity.
  - reflexivity.
  - reflexivity.
Defined.

(** C7 (counterexample): the native tool ["get.data"] of server ["s"] is
    invoked under the name ["get_data"]. *)
Lemma forwarded_name_is_sanitized :
  reg_tools (Scenario.reg "s" 1 ["get.data"]) = [Scenario.native "get.data"] /\
  tool_log (state_of (processQuery Scenario.dotted_llm Scenario.four_backend Scenario.parse_args
                        Scenario.dotted "read it" empty_state))
    = [{| inv_client := 1; inv_name := "get_data"; inv_arguments := JObj [] |}].
Proof. split; reflexivity. Qed.

(** C7 (amended): with pairwise distinct server names, invoking the
    qualified name of a tool of a server whose name is made only of
    letters, digits and '-' sends the parsed arguments and the sanitized
    native name to that server's connection; the sanitized name is the
    native name itself when it is made only of letters, digits, '_' and '-'. *)
Theorem dispatch_forwards_native_name call_tool json_parse (prompt : string)
    (regs : list Registration) (r : Registration) (t : NativeTool) (c : ToolCall)
    (s : St) (args : json) :
  NoDup (map reg_name regs) -> In r regs -> In t (reg_tools r) ->
  server_name_safe (reg_name r) = true ->
  call_name c = fn_name (tool_function (to_function (reg_name r) t)) ->
  json_parse (call_arguments c) = Some args ->
  tool_log (state_of (dispatch_call call_tool json_parse
                        (registerAll (new_orchestrator prompt) regs) c s)) =
    tool_log s ++ [{| inv_client := reg_client r; inv_name := sanitize (nt_name t);
                      inv_arguments := args |}] /\
  (tool_name_safe (nt_name t) = true -> sanitize (nt_name t) = nt_name t).
Proof.
  intros Hnd Hr Ht Hn Hc Hp; split; [|apply sanitize_safe].
  unfold dispatch_call, bind, from_sum, from_option, callTool, push_messages, ret, throw.
  rewrite (resolve_registered prompt regs r t c Hnd Hr Ht Hn Hc), Hp; simpl.
  destruct (call_tool _ _); reflexivity.
Qed.

(** Witness of C7: [math_add] of the spec's scenario. *)
Lemma dispatch_forwards_native_name_witness :
  tool_log (state_of (dispatch_call Scenario.four_backend Scenario.parse_args
                        (registerAll (new_orchestrator "You are an agent.")
                           [Scenario.reg "files" 1 ["read"]; Scenario.reg "math" 2 ["add"; "read"]])
                        Scenario.add_call empty_state)) =
    [] ++ [{| inv_client := 2; inv_name := sanitize "add"; inv_arguments := JObj [] |}] /\
  (tool_name_safe "add" = true -> sanitize "add" = "add").
Proof.
  apply (dispatch_forwards_native_name Scenario.four_backend Scenario.parse_args
           "You are an agent." _ (Scenario.reg "math" 2 ["add"; "read"]) (Scenario.native "add")).
  - simpl; repeat constructor; simpl; try (intros [H|[]]; discriminate); intros [].
  - right; left; reflexivity.
  - left; reflexivity.
  - reflexivity.
  - reflexivity.
  - reflexivity.
Defined.

(** ** C6: registering an already registered name *)

(** C6 (counterexample): registering ["math"] a second time succeeds, and
    changes both the server map and the flattened tool list. *)
Lemma duplicate_registration_changes_registry :
  let o1 := registerServer (new_orchestrator "You are an agent.") "math" 1 [Scenario.native "add"] in
  let o2 := registerServer o1 "math" 2 [Scenario.native "mul"] in
  map_get "math" (servers o1) <> None /\
  servers o2 <> servers o1 /\ allFunctions o2 <> allFunctions o1.
Proof. simpl; repeat split; discriminate. Qed.

(** C6 (amended): registering a name that is already registered does not
    fail: the entry of that name is replaced in place by the new binding,
    the other entries are untouched, and the new descriptors are appended
    to the flattened tool list after the old ones, which stay. *)
Theorem registerServer_existing_name (o : MCPOrchestrator) (n : string) (client : nat)
    (tools : list NativeTool) :
  map_get n (servers o) <> None ->
  map_get n (servers (registerServer o n client tools)) =
    Some {| srv_name := n; srv_client := client; srv_functions := map (to_function n) tools |} /\
  map fst (servers (registerServer o n client tools)) = map fst (servers o) /\
  (forall k, k <> n -> map_get k (servers (registerServer o n client tools)) = map_get k (servers o)) /\
  allFunctions (registerServer o n client tools) = allFunctions o ++ map (to_function n) tools.
Proof.
  intros H; simpl; repeat split.
  - now rewrite map_get_set, String.eqb_refl.
  - now apply map_set_keys.
  - intros k Hk; rewrite map_get_set.
    destruct (String.eqb k n) eqn:E; [apply String.eqb_eq in E; contradiction | reflexivity].
Qed.

(** Witness of C6. *)
Lemma registerServer_existing_name_witness :
  let o1 := registerServer (new_orchestrator "You are an agent.") "math" 1 [Scenario.native "add"] in
  map_get "math" (servers (registerServer o1 "math" 2 [Scenario.native "mul"])) =
    Some {| srv_name := "math"; srv_client := 2;
            srv_functions := map (to_function "math") [Scenario.native "mul"] |} /\
  map fst (servers (registerServer o1 "math" 2 [Scenario.native "mul"])) = map fst (servers o1) /\
  (forall k, k <> "math" ->
     map_get k (servers (registerServer o1 "math" 2 [Scenario.native "mul"])) = map_get k (servers o1)) /\
  allFunctions (registerServer o1 "math" 2 [Scenario.native "mul"]) =
    allFunctions o1 ++ map (to_function "math") [Scenario.native "mul"].
Proof.
  intros o1.
  apply (registerServer_existing_name o1 "math" 2 [Scenario.native "mul"]).
  simpl; discriminate.
Defined.

(** ** C4: provider adapters *)

Lemma find_first_text (l : list Adapters.ContentBlock) (b : Adapters.ContentBlock) :
  find Adapters.isTextBlock l = Some b ->
  exists pre post, l = pre ++ b :: post /\ Forall (fun b => Adapters.isTextBlock b = false) pre.
Proof.
  induction l as [|b0 l IH]; simpl; [discriminate|].
  destruct (Adapters.isTextBlock b0) eqn:E.
  - intros H; inversion H; subst; exists [], l; auto.
  - intros H; destruct (IH H) as (pre & post & -> & Hpre).
    exists (b0 :: pre), post; split; [reflexivity | constructor; assumption].
Qed.

(** C4 (counterexample): a native Anthropic response made of one
    [tool_use] block is normalized to a choice with no tool calls. *)
Lemma claude_drops_tool_use :
  Adapters.native_tool_uses {| Adapters.a_content :=
      [Adapters.ToolUseBlock "toolu_1" "math_add" (JObj [])] |} <> [] /\
  Adapters.claude_chat
    (fun _ => Some {| Adapters.a_content := [Adapters.ToolUseBlock "toolu_1" "math_add" (JObj [])] |})
    [user_message "what is 2+2"] [] Auto =
  Some {| choices := [{| role := RAssistant; content := Some ""; tool_calls := Some [];
                         tool_call_id := None |}] |}.
Proof. split; [discriminate | reflexivity]. Qed.

(** C4 (amended): the Claude adapter returns one choice whose content is
    the first text block's text (the empty string if there is none) and
    whose tool-call list is always empty; the GPT adapter returns the
    native OpenAI response unchanged. *)
Theorem adapters_normalize api_claude api_gpt (messages : list Message)
    (tools : list ChatCompletionTool) (tool_choice : ToolChoice) (res : Adapters.AnthropicResponse) :
  api_claude (Adapters.claude_request messages tools) = Some res ->
  (exists m text,
     Adapters.claude_chat api_claude messages tools tool_choice = Some {| choices := [m] |} /\
     content m = Some text /\ Adapters.first_text_spec (Adapters.a_content res) text /\
     tool_calls m = Some []) /\
  Adapters.gpt_chat api_gpt messages tools tool_choice =
    api_gpt {| Adapters.o_model := "gpt-4-1106-preview"; Adapters.o_messages := messages;
               Adapters.o_tools := tools; Adapters.o_tool_choice := tool_choice |}.
Proof.
  intros H; split; [|reflexivity].
  unfold Adapters.claude_chat; rewrite H.
  destruct (find Adapters.isTextBlock (Adapters.a_content res)) as [b|] eqn:Ef.
  - pose proof (find_some _ _ Ef) as [_ Hb].
    destruct b as [text| |]; try discriminate.
    eexists _, text; repeat split.
    left; exact (find_first_text _ _ Ef).
  - eexists _, ""; repeat split.
    right; split; [|reflexivity].
    apply Forall_forall; intros b Hb; exact (find_none _ _ Ef b Hb).
Qed.

(** Witness of C4. *)
Lemma adapters_normalize_witness :
  (exists m text,
     Adapters.claude_chat
       (fun _ => Some {| Adapters.a_content := [Adapters.OtherBlock "thinking"; Adapters.TextBlock "4"] |})
       [user_message "what is 2+2"] [] Auto = Some {| choices := [m] |} /\
     content m = Some text /\
     Adapters.first_text_spec [Adapters.OtherBlock "thinking"; Adapters.TextBlock "4"] text /\
     tool_calls m = Some []) /\
  Adapters.gpt_chat (fun _ => None) [user_message "what is 2+2"] [] Auto =
    (fun _ : Adapters.OpenAIRequest => None)
      {| Adapters.o_model := "gpt-4-1106-preview"; Adapters.o_messages := [user_message "what is 2+2"];
         Adapters.o_tools := []; Adapters.o_tool_choice := Auto |}.
Proof.
  apply (adapters_normalize
           (fun _ => Some {| Adapters.a_content := [Adapters.OtherBlock "thinking"; Adapters.TextBlock "4"] |})
           (fun _ => None) [user_message "what is 2+2"] [] Auto
           {| Adapters.a_content := [Adapters.OtherBlock "thinking"; Adapters.TextBlock "4"] |}).
  reflexivity.
Defined.

(** ** C8: unknown tool names *)

(** C8 (counterexample): the second model response names an unregistered
    tool, yet the query succeeds with that response's text. *)
Lemma unknown_tool_in_final_response_ignored :
  find_tool Scenario.math_files "nope_tool" = None /\
  (forall r past req, Scenario.unknown_later_llm (r :: past) req =
     Some (Scenario.reply "done" [Scenario.call "call_2" "nope_tool" "{}"])) /\
  exists s',
    processQuery Scenario.unknown_later_llm Scenario.four_backend Scenario.parse_args
      Scenario.math_files "what is 2+2" empty_state = Ok "done" s' /\
    length (chat_log s') = 2.
Proof.
  split; [reflexivity|]; split; [reflexivity|].
  eexists; split; reflexivity.
Qed.

(** C8 (amended): when a tool call of the first model response names a
    tool that is not registered, and the calls before it were dispatched,
    the query fails with the unknown-tool error; the history then holds the
    seed and the message pairs of the earlier calls only, nothing for the
    failed call.  Tool calls of the second response are not examined. *)
Theorem processQuery_unknown_tool llm_chat call_tool json_parse o q s r1 m1
    (pre post : list ToolCall) (c : ToolCall) (s1 : St) :
  llm_chat (chat_log s) (query_request o q) = Some r1 ->
  hd_error (choices r1) = Some m1 ->
  tool_calls m1 = Some (pre ++ c :: post) ->
  dispatch_all call_tool json_parse o pre (after_first_request o q s) = Ok tt s1 ->
  find_tool o (call_name c) = None ->
  processQuery llm_chat call_tool json_parse o q s = Err (UnknownToolName (call_name c)) s1 /\
  exists ts, length ts = length pre /\ history s1 = seed o q ++ round_messages pre ts.
Proof.
  intros E1 E2 E3 Ed Ef; split.
  - rewrite processQuery_unfold; cbv zeta; rewrite E1, E2, E3.
    destruct (pre ++ c :: post) as [|c0 l] eqn:El; [exfalso; exact (app_cons_not_nil pre post c (eq_sym El))|].
    rewrite <- El, dispatch_all_app; unfold bind at 1; rewrite Ed; simpl.
    unfold bind, dispatch_call, bind, from_sum, resolve_tool; rewrite Ef; reflexivity.
  - apply dispatch_all_ok in Ed as (invs & ts & _ & _ & Hl & _ & Hh).
    exists ts; split; assumption.
Qed.

(** Witness of C8: [math_add] is dispatched, then [nope_tool] fails. *)
Lemma processQuery_unknown_tool_witness :
  exists s1,
    dispatch_all Scenario.four_backend Scenario.parse_args Scenario.math_files [Scenario.add_call]
      (after_first_request Scenario.math_files "what is 2+2" empty_state) = Ok tt s1 /\
    processQuery Scenario.unknown_first_llm Scenario.four_backend Scenario.parse_args
      Scenario.math_files "what is 2+2" empty_state = Err (UnknownToolName "nope_tool") s1 /\
    exists ts, length ts = length [Scenario.add_call] /\
      history s1 = seed Scenario.math_files "what is 2+2" ++ round_messages [Scenario.add_call] ts.
Proof.
  eexists; split; [reflexivity|].
  apply (processQuery_unknown_tool Scenario.unknown_first_llm Scenario.four_backend Scenario.parse_args
           Scenario.math_files "what is 2+2" empty_state
           (Scenario.reply "" [Scenario.add_call; Scenario.call "call_2" "nope_tool" "{}"])
           {| role := RAssistant; content := Some "";
              tool_calls := Some [Scenario.add_call; Scenario.call "call_2" "nope_tool" "{}"];
              tool_call_id := None |}
           [Scenario.add_call] [] (Scenario.call "call_2" "nope_tool" "{}")); reflexivity.
Defined.

(** * Further properties: start-up, registration from the configuration,
    cleanup, the query loops and the dispatch edge cases *)

Lemma trim_start_blank (s : string) :
  forallb Startup.is_js_space (list_ascii_of_string s) = true -> Startup.trim_start s = "".
Proof.
  induction s as [|c s IH]; simpl; [reflexivity|].
  intros H; apply andb_prop in H as [Hc Hs]; rewrite Hc; exact (IH Hs).
Qed.

Lemma trim_blank (s : string) :
  forallb Startup.is_js_space (list_ascii_of_string s) = true -> Startup.trim s = "".
Proof. intros H; unfold Startup.trim; rewrite (trim_start_blank s H); reflexivity. Qed.

Lemma loadConfig_object (env : Startup.Env) (cfg : json) :
  cfg <> JNull ->
  Startup.loadConfig env cfg =
  match Startup.select_llm env (Startup.get_field "llm" cfg) with
  | inl e => inl e
  | inr llm =>
      match Startup.nonblank_string (Startup.get_field "systemPrompt" cfg) with
      | None => inl Startup.InvalidSystemPrompt
      | Some p =>
          match Startup.nonblank_string (Startup.get_field "serverConfig" cfg) with
          | None => inl Startup.InvalidServerConfig
          | Some sc => inr (llm, p, sc)
          end
      end
  end.
Proof. intros H; destruct cfg; [congruence|reflexivity..]. Qed.

Lemma existsb_negb_forallb {A} (f : A -> bool) (l : list A) :
  existsb (fun c => negb (f c)) l = negb (forallb f l).
Proof. induction l as [|a l IH]; simpl; [reflexivity|]; rewrite IH; destruct (f a); reflexivity. Qed.

Lemma nonblank_string_some (v : option json) (p : string) :
  Startup.nonblank_string v = Some p ->
  v = Some (JStr p) /\ existsb (fun c => negb (Startup.is_js_space c)) (list_ascii_of_string p) = true.
Proof.
  destruct v as [[| | | s | |]|]; simpl; try discriminate.
  destruct (String.eqb (Startup.trim s) "") eqn:E; [discriminate|].
  intros H; inversion H; subst; split; [reflexivity|].
  rewrite existsb_negb_forallb.
  destruct (forallb Startup.is_js_space (list_ascii_of_string p)) eqn:Hb; [|reflexivity].
  rewrite (trim_blank p Hb) in E; discriminate.
Qed.

(** X1: when [loadConfig] accepts a configuration, the system prompt and the server-config path it returns are the configuration's [systemPrompt] and [serverConfig] strings as written, untrimmed, and each holds a character that is not white space. *)
Theorem loadConfig_accepts_only_nonblank (env : Startup.Env) (cfg : json) kind (p sc : string) :
  Startup.loadConfig env cfg = inr (kind, p, sc) ->
  Startup.get_field "systemPrompt" cfg = Some (JStr p) /\
  existsb (fun c => negb (Startup.is_js_space c)) (list_ascii_of_string p) = true /\
  Startup.get_field "serverConfig" cfg = Some (JStr sc) /\
  existsb (fun c => negb (Startup.is_js_space c)) (list_ascii_of_string sc) = true.
Proof.
  intros H.
  assert (Hn : cfg <> JNull) by (intros ->; discriminate).
  rewrite (loadConfig_object env cfg Hn) in H.
  destruct (Startup.select_llm env _); [discriminate|].
  destruct (Startup.nonblank_string (Startup.get_field "systemPrompt" cfg)) as [p'|] eqn:Ep; [|discriminate].
  destruct (Startup.nonblank_string (Startup.get_field "serverConfig" cfg)) as [sc'|] eqn:Es; [|discriminate].
  inversion H; subst.
  apply nonblank_string_some in Ep as [Ep1 Ep2]; apply nonblank_string_some in Es as [Es1 Es2].
  auto.
Qed.

(** X3: a [systemPrompt] made only of white space (spaces, tabs, line breaks, no-break spaces) is rejected by [loadConfig]: with a usable provider the error is the invalid-systemPrompt one, otherwise the provider error comes first. *)
Theorem loadConfig_rejects_blank_prompt (env : Startup.Env) (cfg : json) (p : string) :
  Startup.get_field "systemPrompt" cfg = Some (JStr p) ->
  forallb Startup.is_js_space (list_ascii_of_string p) = true ->
  Startup.loadConfig env cfg =
  match Startup.select_llm env (Startup.get_field "llm" cfg) with
  | inl e => inl e
  | inr _ => inl Startup.InvalidSystemPrompt
  end.
Proof.
  intros Hf Hb.
  assert (Hn : cfg <> JNull) by (intros ->; discriminate).
  rewrite (loadConfig_object env cfg Hn), Hf; simpl; rewrite (trim_blank p Hb); reflexivity.
Qed.

Lemma loadConfig_rejects_blank_prompt_witness :
  let cfg := JObj [("llm", JStr "gpt"); ("systemPrompt", JStr " 
	"); ("serverConfig", JStr "servers.json")] in
  let env := {| Startup.env_openai := Some "sk"; Startup.env_claude := None |} in
  Startup.get_field "systemPrompt" cfg = Some (JStr " 
	") /\
  forallb Startup.is_js_space (list_ascii_of_string " 
	") = true /\
  Startup.loadConfig env cfg = inl Startup.InvalidSystemPrompt.
Proof.
  intros cfg env; split; [reflexivity|split; [reflexivity|]].
  rewrite (loadConfig_rejects_blank_prompt env cfg " 
	"); reflexivity.
Defined.

(** registerServersFromConfig *)
Lemma registerServersFromConfig_app connect o pre rest regs :
  Forall2 (Startup.connected connect) pre regs ->
  Startup.registerServersFromConfig connect o (pre ++ rest) =
  let '(o', tried, failed) := Startup.registerServersFromConfig connect (registerAll o regs) rest in
  (o', map fst pre ++ tried, failed).
Proof.
  intros H; revert o; induction H as [|[n sp] r pre regs [Hn Hc] H IH]; intros o;
    [|simpl in Hn, Hc].
  - simpl; destruct (Startup.registerServersFromConfig connect o rest) as [[o' t] f]; reflexivity.
  - rewrite <- app_comm_cons; cbn [Startup.registerServersFromConfig].
    rewrite Hc, IH, registerAll_cons, Hn.
    destruct (Startup.registerServersFromConfig connect _ rest) as [[o' t] f]; reflexivity.
Qed.

Lemma registerServersFromConfig_complete connect o entries regs :
  Forall2 (Startup.connected connect) entries regs ->
  Startup.registerServersFromConfig connect o entries = (registerAll o regs, map fst entries, None).
Proof.
  intros H; rewrite <- (app_nil_r entries) at 1; rewrite (registerServersFromConfig_app connect o entries [] regs H).
  simpl; rewrite app_nil_r; reflexivity.
Qed.

Lemma registerServersFromConfig_prefix_fail connect o pre name spec post regs :
  Forall2 (Startup.connected connect) pre regs ->
  connect name spec = None ->
  Startup.registerServersFromConfig connect o (pre ++ (name, spec) :: post) =
  (registerAll o regs, map fst pre ++ [name], Some name).
Proof.
  intros H Hc; rewrite (registerServersFromConfig_app connect o pre _ regs H); simpl; rewrite Hc.
  reflexivity.
Qed.

(** cleanup *)
Lemma close_all_ok (close : nat -> bool) (l : list (string * MCPServer)) :
  Forall (fun x => close (srv_client (snd x)) = true) l ->
  Session.close_all close l = (map (fun x => srv_client (snd x)) l, true).
Proof.
  induction 1 as [|[n srv] l Hx Hl IH]; simpl in *; [reflexivity|].
  rewrite Hx, IH; reflexivity.
Qed.

(** X4: [cleanup] closes the servers in map order and stops at the first close that rejects: the servers after it are never closed. *)
Theorem cleanup_stops_at_failed_close (close : nat -> bool) (o : MCPOrchestrator)
    pre (n : string) (srv : MCPServer) post :
  servers o = pre ++ (n, srv) :: post ->
  Forall (fun x => close (srv_client (snd x)) = true) pre ->
  close (srv_client srv) = false ->
  Session.cleanup close o = (map (fun x => srv_client (snd x)) pre ++ [srv_client srv], false).
Proof.
  unfold Session.cleanup; intros -> Hpre Hc.
  induction Hpre as [|[n' s'] l Hx Hl IH]; simpl in *; [rewrite Hc; reflexivity|].
  rewrite Hx, IH; reflexivity.
Qed.

Lemma map_get_none_notin {V} (k : string) (m : list (string * V)) :
  ~ In k (map fst m) -> map_get k m = None.
Proof.
  induction m as [|[k' v] m IH]; simpl; intros H; [reflexivity|].
  destruct (String.eqb k k') eqn:E; [apply String.eqb_eq in E; subst; tauto|].
  apply IH; tauto.
Qed.

Lemma map_set_fresh {V} (k : string) (v : V) (m : list (string * V)) :
  ~ In k (map fst m) -> map_set k v m = m ++ [(k, v)].
Proof.
  induction m as [|[k' v'] m IH]; simpl; intros H; [reflexivity|].
  destruct (String.eqb k k') eqn:E; [apply String.eqb_eq in E; subst; tauto|].
  rewrite IH by tauto; reflexivity.
Qed.

Lemma registerAll_servers_fresh (o : MCPOrchestrator) (regs : list Registration) :
  NoDup (map reg_name regs) ->
  (forall r, In r regs -> ~ In (reg_name r) (map fst (servers o))) ->
  servers (registerAll o regs) = servers o ++ map (fun r => (reg_name r, binding_of r)) regs.
Proof.
  revert o; induction regs as [|r regs IH]; intros o Hnd Hf; [simpl; now rewrite app_nil_r|].
  inversion Hnd as [|x l Hnotin Hnd']; subst.
  rewrite registerAll_cons, IH; simpl.
  - rewrite map_set_fresh by (apply Hf; left; reflexivity).
    rewrite <- app_assoc; reflexivity.
  - exact Hnd'.
  - intros r' Hr'; simpl; rewrite map_set_fresh by (apply Hf; left; reflexivity).
    rewrite map_app, in_app_iff; simpl; intros [H|[H|[]]].
    + exact (Hf r' (or_intror Hr') H).
    + apply Hnotin; rewrite H; apply in_map; exact Hr'.
Qed.

Lemma cleanup_registered (close : nat -> bool) (prompt : string) (regs : list Registration) :
  NoDup (map reg_name regs) ->
  Forall (fun r => close (reg_client r) = true) regs ->
  Session.cleanup close (registerAll (new_orchestrator prompt) regs) = (map reg_client regs, true).
Proof.
  intros Hnd Hc; unfold Session.cleanup.
  rewrite registerAll_servers_fresh by (exact Hnd || (intros r _ [])); simpl.
  rewrite close_all_ok; [rewrite map_map; reflexivity|].
  apply Forall_map; eapply Forall_impl; [|exact Hc]; intros r H; exact H.
Qed.

Lemma map_set_in_keys {V} (k k' : string) (v : V) (m : list (string * V)) :
  In k' (map fst (map_set k v m)) <-> k' = k \/ In k' (map fst m).
Proof.
  induction m as [|[k0 v0] m IH]; simpl.
  - split; intros [H|[]]; left; symmetry; exact H.
  - destruct (String.eqb k k0) eqn:E; simpl.
    + apply String.eqb_eq in E; subst k0.
      split; [intros [H|H]; [left; symmetry; exact H|right; right; exact H]|].
      intros [H|[H|H]]; [left; symmetry; exact H|left; exact H|right; exact H].
    + rewrite IH; tauto.
Qed.

Lemma map_set_nodup {V} (k : string) (v : V) (m : list (string * V)) :
  NoDup (map fst m) -> NoDup (map fst (map_set k v m)).
Proof.
  induction m as [|[k0 v0] m IH]; simpl; intros H.
  - repeat constructor; intros [].
  - inversion H as [|x l Hn Hnd]; subst.
    destruct (String.eqb k k0) eqn:E; simpl; [exact H|].
    constructor; [|exact (IH Hnd)].
    rewrite map_set_in_keys; intros [->|Hin]; [|exact (Hn Hin)].
    rewrite String.eqb_refl in E; discriminate.
Qed.

(** X5: the server map built by registrations holds each registered name exactly once, whatever re-registrations happened. *)
Theorem server_map_keys (prompt : string) (regs : list Registration) :
  NoDup (map fst (servers (registerAll (new_orchestrator prompt) regs))) /\
  (forall n, In n (map fst (servers (registerAll (new_orchestrator prompt) regs))) <->
             In n (map reg_name regs)).
Proof.
  assert (G : forall o, NoDup (map fst (servers o)) ->
            NoDup (map fst (servers (registerAll o regs))) /\
            (forall n, In n (map fst (servers (registerAll o regs))) <->
                       In n (map fst (servers o)) \/ In n (map reg_name regs))).
  { induction regs as [|r regs IH]; intros o Ho; [simpl; split; [exact Ho|tauto]|].
    rewrite registerAll_cons.
    destruct (IH (registerServer o (reg_name r) (reg_client r) (reg_tools r)) (map_set_nodup _ _ _ Ho)) as [H1 H2]; split; [exact H1|].
    intros n; rewrite H2; simpl; rewrite map_set_in_keys; split; intros; intuition. }
  destruct (G (new_orchestrator prompt) (NoDup_nil _)) as [H1 H2]; split; [exact H1|].
  intros n; rewrite H2; simpl; tauto.
Qed.

Lemma map_set_in {V} (k k' : string) (v v' : V) (m : list (string * V)) :
  NoDup (map fst m) -> In (k', v) (map_set k v' m) ->
  (k' = k /\ v = v') \/ (k' <> k /\ In (k', v) m).
Proof.
  induction m as [|[k0 v0] m IH]; simpl; intros Hnd Hin.
  - destruct Hin as [E|[]]; inversion E; subst; left; split; reflexivity.
  - inversion Hnd as [|x l Hn Hnd']; subst.
    destruct (String.eqb k k0) eqn:E.
    + apply String.eqb_eq in E; subst k0.
      destruct Hin as [Ep|Hin]; [inversion Ep; subst; left; split; reflexivity|].
      right; split; [|right; exact Hin].
      intros ->; apply Hn; apply (in_map fst) in Hin; exact Hin.
    + destruct Hin as [Ep|Hin].
      * inversion Ep; subst; right; split; [|left; reflexivity].
        intros ->; rewrite String.eqb_refl in E; discriminate.
      * destruct (IH Hnd' Hin) as [H|[H1 H2]]; [left; exact H|right; split; [exact H1|right; exact H2]].
Qed.

Lemma close_all_attempted (close : nat -> bool) (l : list (string * MCPServer)) (x : nat) :
  In x (fst (Session.close_all close l)) -> In x (map (fun y => srv_client (snd y)) l).
Proof.
  induction l as [|[n srv] l IH]; simpl; [tauto|].
  destruct (close (srv_client srv)); simpl; [|tauto].
  destruct (Session.close_all close l) as [cs ok] eqn:E; simpl in *; intuition.
Qed.

(** X6: when a server name is registered again with a new connection, [cleanup] never closes the connection it replaced (when no other server shares it). *)
Theorem reregistered_client_not_closed (close : nat -> bool) (o : MCPOrchestrator) (name : string)
    (c : nat) (tools : list NativeTool) (old : MCPServer) :
  NoDup (map fst (servers o)) ->
  map_get name (servers o) = Some old ->
  (forall n s, In (n, s) (servers o) -> n <> name -> srv_client s <> srv_client old) ->
  c <> srv_client old ->
  ~ In (srv_client old) (fst (Session.cleanup close (registerServer o name c tools))).
Proof.
  intros Hnd _ Hu Hc Hin; unfold Session.cleanup in Hin.
  apply close_all_attempted, in_map_iff in Hin as ([n s] & Hs & Hin); simpl in Hs, Hin.
  destruct (map_set_in _ _ _ _ _ Hnd Hin) as [[_ ->]|[Hn Hin']]; simpl in Hs.
  - exact (Hc Hs).
  - exact (Hu n s Hin' Hn Hs).
Qed.

(** REPL *)
(** X7: in both query loops, input after a line equal to "quit" in any letter case is never read. *)
Theorem repl_ignores_lines_after_quit (query : string -> M string) pre q post (s : St) :
  Session.is_quit q = true ->
  Session.repl query (pre ++ q :: post) s = Session.repl query (pre ++ [q]) s /\
  Session.repl_catch query (pre ++ q :: post) s = Session.repl_catch query (pre ++ [q]) s.
Proof.
  intros Hq; split; revert s; induction pre as [|l pre IH]; intros s; simpl;
    [rewrite Hq; reflexivity| |rewrite Hq; reflexivity|];
  destruct (Session.is_quit l); [reflexivity| |reflexivity|];
  destruct (query l s); rewrite ?IH; reflexivity.
Qed.

Lemma repl_catch_quit_end (query : string -> M string) pre q post (s : St) :
  Session.is_quit q = true ->
  snd (Session.repl_catch query (pre ++ q :: post) s) = Session.EQuit.
Proof.
  intros Hq; revert s; induction pre as [|l pre IH]; intros s; simpl; [rewrite Hq; reflexivity|].
  destruct (Session.is_quit l); [reflexivity|].
  destruct (query l s) as [a s1|e s1]; specialize (IH s1);
    destruct (Session.repl_catch query (pre ++ q :: post) s1) as [[p1 s2] e2]; exact IH.
Qed.

Lemma repl_quit_end (query : string -> M string) pre q post (s : St) :
  Session.is_quit q = true ->
  snd (Session.repl query (pre ++ q :: post) s) <> Session.ENoExit.
Proof.
  intros Hq; revert s; induction pre as [|l pre IH]; intros s; simpl; [rewrite Hq; discriminate|].
  destruct (Session.is_quit l); [discriminate|].
  destruct (query l s) as [a s1|e s1]; [|discriminate]; specialize (IH s1);
    destruct (Session.repl query (pre ++ q :: post) s1) as [[p1 s2] e2]; exact IH.
Qed.

(** X8: on an input holding a quit line, the loop of index.ts prints a prefix of what the loop of the earlier client prints: the same answers up to the first rejected query, where index.ts stops while the earlier client prints the error and goes on to the quit line; without a rejected query both loops print the same answers and stop at the quit line. *)
Theorem repl_catch_extends_repl (query : string -> M string) pre q post (s s' : St) p en :
  Session.is_quit q = true ->
  Session.repl query (pre ++ q :: post) s = (p, s', en) ->
  match en with
  | Session.EError e => exists rest s'',
      Session.repl_catch query (pre ++ q :: post) s =
        (map Session.PAnswer p ++ Session.PError e :: rest, s'', Session.EQuit)
  | _ => Session.repl_catch query (pre ++ q :: post) s = (map Session.PAnswer p, s', Session.EQuit)
  end.
Proof.
  intros Hq; revert s p; induction pre as [|l pre IH]; intros s p H; simpl in *.
  - rewrite Hq in H |- *; inversion H; subst; reflexivity.
  - destruct (Session.is_quit l); [inversion H; subst; reflexivity|].
    destruct (query l s) as [a s1|e s1].
    + destruct (Session.repl query (pre ++ q :: post) s1) as [[p1 s2] e2] eqn:E.
      inversion H; subst. specialize (IH s1 p1 E).
      destruct en;
        [rewrite IH; reflexivity
        |destruct IH as (rest & s'' & ->); exists rest, s''; reflexivity
        |rewrite IH; reflexivity].
    + inversion H; subst.
      pose proof (repl_catch_quit_end query pre q post s' Hq) as Hend.
      destruct (Session.repl_catch query (pre ++ q :: post) s') as [[p1 s2] e2].
      simpl in Hend; subst e2; exists p1, s2; reflexivity.
Qed.

(** X9: the earlier client's loop prints one answer or error for every line before the first quit line, whatever queries fail. *)
Theorem repl_catch_answers_every_line (query : string -> M string) pre q post (s : St) :
  Forall (fun l => Session.is_quit l = false) pre ->
  Session.is_quit q = true ->
  length (fst (fst (Session.repl_catch query (pre ++ q :: post) s))) = length pre /\
  snd (Session.repl_catch query (pre ++ q :: post) s) = Session.EQuit.
Proof.
  intros Hpre Hq; revert s; induction Hpre as [|l pre Hl Hpre IH]; intros s; simpl.
  - rewrite Hq; split; reflexivity.
  - rewrite Hl; destruct (query l s) as [a s1|e s1];
    destruct (IH s1) as [IH1 IH2];
    destruct (Session.repl_catch query (pre ++ q :: post) s1) as [[p1 s2] e2];
    simpl in *; split; congruence.
Qed.

Lemma close_all_result (close : nat -> bool) (l : list (string * MCPServer)) :
  snd (Session.close_all close l) = forallb (fun x => close (srv_client (snd x))) l.
Proof.
  induction l as [|[n srv] l IH]; simpl; [reflexivity|].
  destruct (close (srv_client srv)); simpl; [|reflexivity].
  destruct (Session.close_all close l); exact IH.
Qed.

(** X10: [main] reaches [process.exit(0)] exactly when the query loop ends, at a quit line or at a query rejected by the model, and every server connection then closes; when the input ends first, it is never reached. *)
Theorem session_exit_iff_all_closed (close : nat -> bool) (o : MCPOrchestrator)
    (query : string -> M string) lines (s : St) :
  Session.exit_called (Session.session close o query lines s) = true <->
  Session.ending (Session.session close o query lines s) <> Session.ENoExit /\
  forallb (fun x => close (srv_client (snd x))) (servers o) = true.
Proof.
  unfold Session.session.
  destruct (Session.repl query lines s) as [[p s'] e].
  unfold Session.cleanup; rewrite <- close_all_result.
  destruct (Session.close_all close (servers o)) as [cs ok].
  destruct e; simpl;
    (split; [intros H; split; [discriminate|exact H] | intros [_ H]; exact H]) ||
    (split; [discriminate | intros [H _]; exfalso; apply H; reflexivity]).
Qed.

(** dispatch *)
(** X11: a tool call whose tool cannot be resolved or whose arguments are not valid JSON fails before any effect: no tool is invoked and no message is appended. *)
Theorem dispatch_call_unforwarded call_tool json_parse (o : MCPOrchestrator) (c : ToolCall) (s : St) :
  forward json_parse o c = None ->
  exists e, dispatch_call call_tool json_parse o c s = Err e s.
Proof.
  unfold forward, dispatch_call, bind, from_sum, from_option, ret, throw.
  destruct (resolve_tool o c) as [e|[srv n]]; [intros _; exists e; reflexivity|].
  destruct (json_parse (call_arguments c)); [discriminate|].
  intros _; eexists; reflexivity.
Qed.

(** X12: when the tool server rejects a forwarded call, the invocation is recorded but no message is appended and the query fails. *)
Theorem dispatch_call_tool_rejects call_tool json_parse (o : MCPOrchestrator) (c : ToolCall)
    (s : St) (inv : Invocation) :
  forward json_parse o c = Some inv ->
  call_tool (tool_log s) inv = None ->
  dispatch_call call_tool json_parse o c s =
  Err ToolCallError {| history := history s; chat_log := chat_log s; tool_log := tool_log s ++ [inv] |}.
Proof.
  unfold forward, dispatch_call, bind, from_sum, from_option, ret, throw, callTool.
  destruct (resolve_tool o c) as [e|[srv n]]; [discriminate|].
  destruct (json_parse (call_arguments c)); [|discriminate].
  intros H; inversion H; subst; intros Hc; simpl; rewrite Hc; reflexivity.
Qed.

(** X13: after a server name is registered again, a tool name the earlier registration advertised is routed to the new connection under that name, with the new registration's tool descriptors, even when the new registration no longer offers that tool. *)
Theorem reregistered_stale_tool_routed (o : MCPOrchestrator) (n : string) (t : NativeTool)
    (c2 : nat) (tools2 : list NativeTool) (c : ToolCall) :
  server_name_safe n = true -> tool_name_safe (nt_name t) = true ->
  In (to_function n t) (allFunctions o) ->
  call_name c = fn_name (tool_function (to_function n t)) ->
  resolve_tool (registerServer o n c2 tools2) c =
    inr ({| srv_name := n; srv_client := c2; srv_functions := map (to_function n) tools2 |}, nt_name t).
Proof.
  intros Hs Ht Hin Hc; unfold resolve_tool.
  destruct (find_tool_name (registerServer o n c2 tools2) (to_function n t) (call_name c))
    as (f & Hf & Hfn); [simpl; apply in_or_app; left; exact Hin | symmetry; exact Hc|].
  rewrite Hf, Hfn, Hc, (qualified_name_safe n t Hs Ht), (split_underscore_0_prefix n _ Hs).
  simpl servers; rewrite map_get_set, String.eqb_refl.
  replace (n ++ String underscore (nt_name t))%string with ((n ++ "_") ++ nt_name t)%string
    by (rewrite string_app_assoc; reflexivity).
  rewrite replace_first_prefix; reflexivity.
Qed.

(** X14: [processQuery] invokes a tool only when the first model response has a first choice carrying a non-empty list of tool calls. *)
Theorem processQuery_tools_need_tool_calls llm_chat call_tool json_parse o q (s : St) :
  tool_log (state_of (processQuery llm_chat call_tool json_parse o q s)) <> tool_log s ->
  exists r m c cs, llm_chat (chat_log s) (query_request o q) = Some r /\
    hd_error (choices r) = Some m /\ tool_calls m = Some (c :: cs).
Proof.
  rewrite processQuery_unfold; cbv zeta.
  destruct (llm_chat (chat_log s) (query_request o q)) as [r|] eqn:E1;
    [|intros H; exfalso; apply H; reflexivity].
  destruct (hd_error (choices r)) as [m|] eqn:E2; [|intros H; exfalso; apply H; reflexivity].
  destruct (tool_calls m) as [[|c cs]|] eqn:E3; try (intros H; exfalso; apply H; reflexivity).
  intros _; exists r, m, c, cs; repeat split; assumption.
Qed.

(** X15: with the Claude adapter, [processQuery] never invokes a tool and makes exactly one model request, the first one. *)
Theorem claude_never_invokes_tools claude_api gpt_api (k : string) call_tool json_parse o q (s : St) :
  let s' := state_of (processQuery (Startup.llm_chat_of claude_api gpt_api (Startup.KClaude k))
                        call_tool json_parse o q s) in
  tool_log s' = tool_log s /\ chat_log s' = chat_log s ++ [query_request o q].
Proof.
  cbv zeta; rewrite processQuery_unfold; cbv zeta.
  unfold Startup.llm_chat_of, Adapters.claude_chat.
  destruct (claude_api k _); split; reflexivity.
Qed.

Lemma json_stringify_nonempty (v : json) : json_stringify v <> "".
Proof.
  destruct v as [|b|z|s|l|kvs]; simpl; try discriminate.
  - destruct b; discriminate.
  - unfold string_of_Z, NilZero.string_of_int.
    destruct (Z.to_int z) as [d|d]; [|discriminate].
    unfold NilZero.string_of_uint; destruct d; discriminate.
Qed.

(** X16: a tool message has empty content exactly when the tool returned the empty string; a missing or null content becomes the two-character JSON string. *)
Theorem tool_content_empty (c : option json) :
  (tool_content c = "" <-> c = Some (JStr "")) /\
  tool_content None = String quote_char (String quote_char EmptyString) /\
  tool_content (Some JNull) = String quote_char (String quote_char EmptyString).
Proof.
  split; [|split; reflexivity].
  split; [|intros ->; reflexivity].
  destruct c as [[|b|z|s|l|kvs]|]; cbn [tool_content]; intros H;
    try (exfalso; exact (json_stringify_nonempty _ H)).
  subst; reflexivity.
Qed.

(** names *)
Lemma sanitize_length (s : string) : String.length (sanitize s) = String.length s.
Proof. induction s; simpl; congruence. Qed.

Lemma sanitize_ident (s : string) : tool_name_safe (sanitize s) = true.
Proof.
  induction s as [|c s IH]; [reflexivity|]; simpl.
  unfold tool_name_safe in *; simpl; rewrite IH, andb_true_r.
  destruct (is_ident_char c) eqn:E; [exact E|reflexivity].
Qed.

Lemma string_length_app (a b : string) :
  String.length (a ++ b)%string = String.length a + String.length b.
Proof. induction a; simpl; congruence. Qed.

(** X17: a qualified tool name consists only of letters, digits, '_' and '-', and is as long as the server name, one separator and the native tool name together. *)
Theorem qualified_name_shape (name : string) (t : NativeTool) :
  tool_name_safe (fn_name (tool_function (to_function name t))) = true /\
  String.length (fn_name (tool_function (to_function name t))) =
  String.length name + 1 + String.length (nt_name t).
Proof.
  simpl; split; [apply sanitize_ident|].
  rewrite sanitize_length, !string_length_app; simpl; lia.
Qed.

(** X18: when every configured server connects, [registerServersFromConfig] registers them in configuration order and attempts each once. *)
Theorem registerServersFromConfig_all connect o entries regs :
  Forall2 (Startup.connected connect) entries regs ->
  Startup.registerServersFromConfig connect o entries = (registerAll o regs, map fst entries, None).
Proof. exact (registerServersFromConfig_complete connect o entries regs). Qed.

(** X19: [registerServersFromConfig] stops at the first server that fails to connect: the servers before it stay registered and no later server is attempted. *)
Theorem registerServersFromConfig_fail_fast connect o pre name spec post regs :
  Forall2 (Startup.connected connect) pre regs ->
  connect name spec = None ->
  Startup.registerServersFromConfig connect o (pre ++ (name, spec) :: post) =
  (registerAll o regs, map fst pre ++ [name], Some name).
Proof. exact (registerServersFromConfig_prefix_fail connect o pre name spec post regs). Qed.

(** X2: when every configured server connects under distinct names, the server map [main] ends up with holds one entry per configured server, in configuration order, each bound to its own connection and tools under its configured name. *)
Theorem registerServersFromConfig_server_map connect prompt entries regs :
  NoDup (map fst entries) ->
  Forall2 (Startup.connected connect) entries regs ->
  exists o, Startup.registerServersFromConfig connect (new_orchestrator prompt) entries = (o, map fst entries, None) /\
    servers o = map (fun r => (reg_name r, binding_of r)) regs /\
    map fst (servers o) = map fst entries.
Proof.
  intros Hnd H.
  assert (Hn : map reg_name regs = map fst entries).
  { clear Hnd; induction H as [|e r l l' [Hr _] _ IH]; simpl; [reflexivity|]; congruence. }
  exists (registerAll (new_orchestrator prompt) regs).
  rewrite (registerServersFromConfig_complete connect _ entries regs H).
  assert (Hs : servers (registerAll (new_orchestrator prompt) regs) =
               map (fun r => (reg_name r, binding_of r)) regs).
  { rewrite registerAll_servers_fresh; [reflexivity| rewrite Hn; exact Hnd | simpl; intros _ _ []]. }
  split; [reflexivity|split; [exact Hs|]].
  rewrite Hs, map_map; simpl; exact Hn.
Qed.

(** X20: after registrations under distinct names, [cleanup] closes exactly the registered connections, in registration order. *)
Theorem cleanup_closes_registered (close : nat -> bool) (prompt : string) (regs : list Registration) :
  NoDup (map reg_name regs) ->
  Forall (fun r => close (reg_client r) = true) regs ->
  Session.cleanup close (registerAll (new_orchestrator prompt) regs) = (map reg_client regs, true).
Proof. exact (cleanup_registered close prompt regs). Qed.

(** X21: when a configured server fails to connect, [main] ends with that rejection before its [try]/[finally]: no connection is closed and [process.exit(0)] is not reached. *)
Theorem main_connect_failure_skips_cleanup connect close prompt pre name spec post regs
    (query : MCPOrchestrator -> string -> M string) lines (s : St) :
  Forall2 (Startup.connected connect) pre regs ->
  connect name spec = None ->
  Session.main_from_config connect close prompt (pre ++ (name, spec) :: post) query lines s = inl name.
Proof.
  intros H Hc; unfold Session.main_from_config.
  rewrite (registerServersFromConfig_prefix_fail connect _ pre name spec post regs H Hc); reflexivity.
Qed.

(** X22: when all configured servers connect, every close resolves and the input holds a quit line, [main] closes every connection it opened, in configuration order, and exits, also when a query is rejected before the quit line. *)
Theorem main_closes_all_connections connect close prompt entries regs
    (query : MCPOrchestrator -> string -> M string) pre q post (s : St) :
  NoDup (map fst entries) ->
  Forall2 (Startup.connected connect) entries regs ->
  Forall (fun r => close (reg_client r) = true) regs ->
  Session.is_quit q = true ->
  exists r, Session.main_from_config connect close prompt entries query (pre ++ q :: post) s = inr r /\
    Session.closed r = map reg_client regs /\ Session.exit_called r = true.
Proof.
  intros Hnd H Hc Hq; unfold Session.main_from_config.
  rewrite (registerServersFromConfig_complete connect _ entries regs H).
  eexists; split; [reflexivity|].
  assert (Hn : map reg_name regs = map fst entries).
  { clear Hnd Hc; induction H as [|e r l l' [Hr _] _ IH]; simpl; [reflexivity|]; congruence. }
  unfold Session.session.
  pose proof (repl_quit_end (query (registerAll (new_orchestrator prompt) regs)) pre q post s Hq) as Hend.
  destruct (Session.repl _ (pre ++ q :: post) s) as [[p s'] e].
  simpl in Hend.
  rewrite cleanup_registered by (rewrite ?Hn; assumption).
  destruct e; [split; reflexivity | split; reflexivity | exfalso; apply Hend; reflexivity].
Qed.

(** witnesses *)
Lemma loadConfig_accepts_only_nonblank_witness :
  let cfg := JObj [("llm", JStr "gpt"); ("systemPrompt", JStr " be brief "); ("serverConfig", JStr "servers.json")] in
  let env := {| Startup.env_openai := Some "sk"; Startup.env_claude := None |} in
  Startup.get_field "systemPrompt" cfg = Some (JStr " be brief ") /\
  existsb (fun c => negb (Startup.is_js_space c)) (list_ascii_of_string " be brief ") = true /\
  Startup.get_field "serverConfig" cfg = Some (JStr "servers.json") /\
  existsb (fun c => negb (Startup.is_js_space c)) (list_ascii_of_string "servers.json") = true.
Proof.
  intros cfg env.
  apply (loadConfig_accepts_only_nonblank env cfg (Startup.KGPT "sk") " be brief " "servers.json").
  reflexivity.
Defined.

Lemma registerServersFromConfig_server_map_witness :
  exists o, Startup.registerServersFromConfig Runs.connect (new_orchestrator "p") Runs.entries =
    (o, map fst Runs.entries, None) /\
    servers o = map (fun r => (reg_name r, binding_of r))
                  [Scenario.reg "files" 1 ["read"]; Scenario.reg "math" 2 ["add"]] /\
    map fst (servers o) = map fst Runs.entries.
Proof.
  apply registerServersFromConfig_server_map;
    [repeat constructor; simpl; intuition discriminate | repeat constructor].
Defined.

Lemma reregistered_stale_tool_routed_witness :
  resolve_tool (registerServer Scenario.math_files "math" 5 [Scenario.native "mul"]) Scenario.add_call =
    inr ({| srv_name := "math"; srv_client := 5;
            srv_functions := map (to_function "math") [Scenario.native "mul"] |}, "add").
Proof.
  apply (reregistered_stale_tool_routed Scenario.math_files "math" (Scenario.native "add") 5
           [Scenario.native "mul"] Scenario.add_call); [reflexivity | reflexivity | | reflexivity].
  vm_compute; intuition reflexivity.
Defined.
Lemma registerServersFromConfig_all_witness :
  Forall2 (Startup.connected Runs.connect) Runs.entries [Scenario.reg "files" 1 ["read"]; Scenario.reg "math" 2 ["add"]] /\
  Startup.registerServersFromConfig Runs.connect (new_orchestrator "p") Runs.entries =
  (registerAll (new_orchestrator "p") [Scenario.reg "files" 1 ["read"]; Scenario.reg "math" 2 ["add"]],
   ["files"; "math"], None).
Proof.
  assert (H : Forall2 (Startup.connected Runs.connect) Runs.entries
                [Scenario.reg "files" 1 ["read"]; Scenario.reg "math" 2 ["add"]])
    by (repeat constructor).
  split; [exact H|].
  exact (registerServersFromConfig_all Runs.connect (new_orchestrator "p") Runs.entries _ H).
Defined.

Lemma registerServersFromConfig_fail_fast_witness :
  Startup.registerServersFromConfig Runs.connect (new_orchestrator "p")
    ([("files", Runs.spec "files.js")] ++ ("db", Runs.spec "db.js") :: [("math", Runs.spec "math.js")]) =
  (registerAll (new_orchestrator "p") [Scenario.reg "files" 1 ["read"]],
   map fst [("files", Runs.spec "files.js")] ++ ["db"], Some "db").
Proof.
  apply registerServersFromConfig_fail_fast; [repeat constructor | reflexivity].
Defined.

Lemma cleanup_stops_at_failed_close_witness :
  Session.cleanup Runs.close_fails_2
    (Scenario.orch [Scenario.reg "files" 1 ["read"]; Scenario.reg "math" 2 ["add"];
                    Scenario.reg "web" 3 ["get"]]) =
  (map (fun x => srv_client (snd x)) [("files", binding_of (Scenario.reg "files" 1 ["read"]))] ++
   [srv_client (binding_of (Scenario.reg "math" 2 ["add"]))], false).
Proof.
  apply (cleanup_stops_at_failed_close Runs.close_fails_2 _
           [("files", binding_of (Scenario.reg "files" 1 ["read"]))] "math"
           (binding_of (Scenario.reg "math" 2 ["add"]))
           [("web", binding_of (Scenario.reg "web" 3 ["get"]))]);
    [vm_compute; reflexivity | repeat constructor | reflexivity].
Defined.

Lemma cleanup_closes_registered_witness :
  Session.cleanup Runs.close_ok
    (registerAll (new_orchestrator "p") [Scenario.reg "files" 1 ["read"]; Scenario.reg "math" 2 ["add"]]) =
  (map reg_client [Scenario.reg "files" 1 ["read"]; Scenario.reg "math" 2 ["add"]], true).
Proof.
  apply cleanup_closes_registered;
    [repeat constructor; simpl; intuition discriminate | repeat constructor].
Defined.

Lemma reregistered_client_not_closed_witness :
  ~ In (srv_client (binding_of (Scenario.reg "math" 2 ["add"])))
      (fst (Session.cleanup Runs.close_ok
              (registerServer (Scenario.orch [Scenario.reg "files" 1 ["read"]; Scenario.reg "math" 2 ["add"]])
                 "math" 3 [Scenario.native "add"]))).
Proof.
  apply reregistered_client_not_closed.
  - vm_compute; repeat constructor; simpl; intuition discriminate.
  - reflexivity.
  - vm_compute; intros n s [H|[H|[]]] Hn; inversion H; subst; [discriminate|congruence].
  - discriminate.
Defined.

Lemma repl_ignores_lines_after_quit_witness :
  Session.repl Runs.query (["hello"] ++ "QUIT" :: ["boom"]) empty_state =
  Session.repl Runs.query (["hello"] ++ ["QUIT"]) empty_state /\
  Session.repl_catch Runs.query (["hello"] ++ "QUIT" :: ["boom"]) empty_state =
  Session.repl_catch Runs.query (["hello"] ++ ["QUIT"]) empty_state.
Proof. apply repl_ignores_lines_after_quit; reflexivity. Defined.

Lemma repl_catch_extends_repl_witness :
  exists rest s'',
    Session.repl_catch Runs.query (["a"; "boom"; "b"] ++ "quit" :: ["c"]) empty_state =
    (map Session.PAnswer ["a"] ++ Session.PError ProviderError :: rest, s'', Session.EQuit).
Proof.
  exact (repl_catch_extends_repl Runs.query ["a"; "boom"; "b"] "quit" ["c"] empty_state empty_state
           ["a"] (Session.EError ProviderError) eq_refl eq_refl).
Defined.

Lemma repl_catch_answers_every_line_witness :
  length (fst (fst (Session.repl_catch Runs.query (["a"; "boom"; "b"] ++ "Quit" :: ["c"]) empty_state)))
  = length ["a"; "boom"; "b"] /\
  snd (Session.repl_catch Runs.query (["a"; "boom"; "b"] ++ "Quit" :: ["c"]) empty_state) = Session.EQuit.
Proof. apply repl_catch_answers_every_line; [repeat constructor | reflexivity]. Defined.

Lemma dispatch_call_unforwarded_witness :
  exists e, dispatch_call Scenario.four_backend Scenario.parse_args Scenario.math_files
              (Scenario.call "call_1" "math_add" "not json") empty_state = Err e empty_state.
Proof. apply dispatch_call_unforwarded; reflexivity. Defined.

Lemma dispatch_call_tool_rejects_witness :
  dispatch_call (fun _ _ => None) Scenario.parse_args Scenario.math_files Scenario.add_call empty_state =
  Err ToolCallError {| history := history empty_state; chat_log := chat_log empty_state;
                       tool_log := tool_log empty_state ++
                                   [{| inv_client := 2; inv_name := "add"; inv_arguments := JObj [] |}] |}.
Proof. apply dispatch_call_tool_rejects; reflexivity. Defined.

Lemma processQuery_tools_need_tool_calls_witness :
  exists r m c cs,
    Scenario.one_round_llm (chat_log empty_state) (query_request Scenario.math_files "what is 2+2") = Some r /\
    hd_error (choices r) = Some m /\ tool_calls m = Some (c :: cs).
Proof.
  apply (processQuery_tools_need_tool_calls Scenario.one_round_llm Scenario.four_backend Scenario.parse_args).
  vm_compute; discriminate.
Defined.

Lemma tool_content_empty_witness : tool_content (Some (JNum 0)) <> "" /\ tool_content None <> "".
Proof.
  split; intros H.
  - apply (proj1 (proj1 (tool_content_empty (Some (JNum 0))))) in H; discriminate.
  - apply (proj1 (proj1 (tool_content_empty None))) in H; discriminate.
Defined.

Lemma main_connect_failure_skips_cleanup_witness :
  Session.main_from_config Runs.connect Runs.close_ok "p"
    ([("files", Runs.spec "files.js")] ++ ("db", Runs.spec "db.js") :: [("math", Runs.spec "math.js")])
    (fun _ => Runs.query) ["hello"; "quit"] empty_state = inl "db".
Proof.
  apply (main_connect_failure_skips_cleanup _ _ _ _ _ _ _ [Scenario.reg "files" 1 ["read"]]);
    [repeat constructor | reflexivity].
Defined.

Lemma main_closes_all_connections_witness :
  exists r, Session.main_from_config Runs.connect Runs.close_ok "p" Runs.entries
              (fun _ => Runs.query) (["hello"; "boom"; "more"] ++ "quit" :: []) empty_state = inr r /\
    Session.closed r = map reg_client [Scenario.reg "files" 1 ["read"]; Scenario.reg "math" 2 ["add"]] /\
    Session.exit_called r = true.
Proof.
  apply main_closes_all_connections;
    [repeat constructor; simpl; intuition discriminate | repeat constructor | repeat constructor
    | reflexivity].
Defined.
